(** * microbenthos: domain, entities, variables and processes

    A shallow embedding of the simulation kernel of [microbenthos]
    ([domain.py], [entity.py], [core/entity.py], [process.py]) and the
    properties of its specification.

    Conventions.
    - Python exceptions are values of [exn]; a call that can raise returns a
      [result].  A method that mutates an object returns the new state of
      that object together with the result, so that the mutations made
      before a [raise] stay visible, as in Python.
    - The lengths of the domain are binary64 floats ([float], Rocq's
      primitive floats), with the division, product, sum and comparisons
      of IEEE 754 that Python and numpy compute with; [int(x)] on a float
      is truncation towards zero.  The values of the variables and the
      porosity are exact rationals ([Q]): the [float32] storage of fipy is
      not modelled.
    - Dynamically typed arguments are values of [pyval].
    - The external libraries (sympy, fipy, scipy, importlib) are not part of
      the repository: what the code needs from them is a [Variable] of the
      section that embeds the code using it. *)

From Stdlib Require Import QArith ZArith Lia Ascii Floats.
From stdpp Require Import base option list strings gmap.

Local Open Scope Z_scope.
Local Set Warnings "-register-all,-inexact-float".

(** ** Exceptions and results *)

Inductive exn : Type :=
| RuntimeError (msg : string)
| ValueError (msg : string)
| TypeError (msg : string)
| KeyError (msg : string)
| NameError (msg : string)
| AttributeError (msg : string)
| IndexError (msg : string)
| AssertionError (msg : string)
| OverflowError (msg : string)
| NotImplementedError (msg : string).

Inductive result (A : Type) : Type :=
| Ok (a : A)
| Raise (e : exn).
Arguments Ok {A} a.
Arguments Raise {A} e.

#[global] Instance result_ret : MRet result := fun A a => Ok a.
#[global] Instance result_bind : MBind result := fun A B f m =>
  match m with
  | Ok a => f a
  | Raise e => Raise e
  end.

Definition is_ok {A} (r : result A) : bool :=
  match r with Ok _ => true | Raise _ => false end.

Definition is_ValueError {A} (r : result A) : bool :=
  match r with Raise (ValueError _) => true | _ => false end.

Definition is_RuntimeError {A} (r : result A) : bool :=
  match r with Raise (RuntimeError _) => true | _ => false end.

Definition is_KeyError {A} (r : result A) : bool :=
  match r with Raise (KeyError _) => true | _ => false end.

(** ** Python values *)

Inductive pyval : Type :=
| PyNone
| PyNum (q : Q)
| PyStr (s : string)
| PyList (xs : list pyval)
| PyTuple (xs : list pyval)
| PyDict (kvs : list (pyval * pyval))
| PyArr (xs : list Q)
| PyPhys (q : Q) (unit : string)
| PyPhysArr (xs : list Q) (unit : string).

(** [x == y] on the hashable values that can be dictionary keys. *)
Fixpoint py_eqb (x y : pyval) : bool :=
  match x, y with
  | PyNone, PyNone => true
  | PyNum a, PyNum b => Qeq_bool a b
  | PyStr a, PyStr b => bool_decide (a = b)
  | PyTuple xs, PyTuple ys =>
      (fix go (xs ys : list pyval) : bool :=
         match xs, ys with
         | [], [] => true
         | x :: xs, y :: ys => py_eqb x y && go xs ys
         | _, _ => false
         end) xs ys
  | _, _ => false
  end.

(** [hash(x)] raises [TypeError] on lists, dicts and arrays. *)
Fixpoint hashable (x : pyval) : bool :=
  match x with
  | PyNone | PyNum _ | PyStr _ | PyPhys _ _ => true
  | PyTuple xs => forallb hashable xs
  | PyList _ | PyDict _ | PyArr _ | PyPhysArr _ _ => false
  end.

Definition dq : string := String (Ascii.ascii_of_nat 34) EmptyString.

(** Truth value of a Python object ([if x], [not x], [x or y]). *)
Definition py_bool (x : pyval) : result bool :=
  match x with
  | PyNone => Ok false
  | PyNum q | PyPhys q _ => Ok (negb (Qeq_bool q 0))
  | PyStr s => Ok (negb (bool_decide (s = EmptyString)))
  | PyList xs | PyTuple xs => Ok (negb (bool_decide (xs = [])))
  | PyDict kvs => Ok (negb (bool_decide (kvs = [])))
  | PyArr xs | PyPhysArr xs _ =>
      match xs with
      | [] => Ok false
      | [q] => Ok (negb (Qeq_bool q 0))
      | _ => Raise (ValueError "The truth value of an array with more than one element is ambiguous")
      end
  end.

(** ** State and exceptions

    A method of a mutable object is a function from the state of the object
    to a result and the new state. *)

Definition eff (S A : Type) : Type := S -> result A * S.

#[global] Instance eff_ret {S} : MRet (eff S) := fun A a s => (Ok a, s).
#[global] Instance eff_bind {S} : MBind (eff S) := fun A B f m s =>
  match m s with
  | (Ok a, s') => f a s'
  | (Raise e, s') => (Raise e, s')
  end.

Definition raise {S A} (e : exn) : eff S A := fun s => (Raise e, s).
Definition get {S} : eff S S := fun s => (Ok s, s).
Definition put {S} (s : S) : eff S () := fun _ => (Ok (), s).
Definition lift {S A} (r : result A) : eff S A := fun s => (r, s).

(** [for x in xs: body(x)] *)
Fixpoint for_each {S A} (body : A -> eff S ()) (xs : list A) : eff S () :=
  match xs with
  | [] => mret ()
  | x :: xs => body x ≫= fun _ => for_each body xs
  end.

Lemma bind_ok {S A B} (m : eff S A) (f : A -> eff S B) s b s' :
  (m ≫= f) s = (Ok b, s') -> exists a s1, m s = (Ok a, s1) /\ f a s1 = (Ok b, s').
Proof.
  unfold mbind, eff_bind. destruct (m s) as [[a|e] s1]; [eauto|done].
Qed.

(** * Entities: [entity.py] and [core/entity.py] *)

Module Entity.

(** A reference to the object assigned as domain.  The setters take any
    object: the class of [core/entity.py] does not look at its class, and
    the class of [entity.py] warns about an object that is not an instance
    of its domain class and attaches it all the same.  The setters test the
    object they hold with [if self.domain:], so its truth value in a
    condition matters: it is the parameter [truth] of the setters.  An
    instance of [SedimentDBLDomain] is true, the class defining neither
    [__nonzero__] nor [__len__]; an empty tuple is false. *)
Definition domain_ref : Type := nat.

(** [cls.rsplit('.', 1)] unpacked into two names: [None] when the path has
    no dot (the unpacking raises [ValueError]). *)
Fixpoint rsplit_dot (s : string) : option (string * string) :=
  match s with
  | EmptyString => None
  | String c rest =>
      match rsplit_dot rest with
      | Some (m, n) => Some (String c m, n)
      | None => if bool_decide (c = "."%char) then Some (EmptyString, rest) else None
      end
  end.

Section FromDict.
(** Classes and instances, as [importlib] and the class constructors give
    them. *)
Context {Cls Inst : Type}.
(** [getattr(importlib.import_module(modname), name)]; [None] stands for
    [ImportError] and [AttributeError]. *)
Variable import_getattr : string -> string -> option Cls.
(** [CLS( **init_params )] *)
Variable construct : Cls -> pyval -> result Inst.
(** [inst.post_init( **post_params )], when the instance has the method;
    it returns the instance as the hook leaves it. *)
Variable post_init : Inst -> option (pyval -> result Inst).

Definition from_params (cls : string) (init_params post_params : pyval) : result Inst :=
  let '(cls_modname, cls_name) :=
    match rsplit_dot cls with
    | Some (m, n) => (m, n)
    | None => ("microbenthos", cls)
    end in
  match import_getattr cls_modname cls_name with
  | None => Raise (TypeError "Class {} in {} could not be found!")
  | Some CLS =>
      inst ← construct CLS init_params;
      truthy ← py_bool post_params;
      let post_params := if truthy : bool then post_params else PyDict [] in
      match post_init inst with
      | Some hook => hook post_params
      | None => Ok inst
      end
  end.

(** [from_dict] is the same function in [entity.py] and in
    [core/entity.py].  The dictionary is the caller's object: the function
    returns its state after the call next to the result. *)
Definition from_dict (cdict : gmap string pyval) : result Inst * gmap string pyval :=
  match cdict !! "cls" with
  | None => (Raise (KeyError ("Config dict missing required key " +:+ dq +:+ "cls" +:+ dq +:+ "!")), cdict)
  | Some cls_path =>
      let cdict := delete "cls" cdict in
      let init_params := default (PyDict []) (cdict !! "init_params") in
      let post_params := default (PyDict []) (cdict !! "post_params") in
      match cls_path with
      | PyStr cls => (from_params cls init_params post_params, cdict)
      | _ => (Raise (AttributeError "object has no attribute rsplit"), cdict)
      end
  end.

(** C10. [from_dict] removes the key [cls] from the dictionary it is given,
    whatever the outcome of the construction; a second call on the same
    dictionary object therefore raises the [KeyError] of the missing [cls]
    key, and leaves the dictionary as the first call left it. *)
Theorem from_dict_pops_cls (cdict : gmap string pyval) :
  (from_dict cdict).2 = delete "cls" cdict ∧
  (from_dict cdict).2 !! "cls" = None ∧
  from_dict (from_dict cdict).2 =
    (Raise (KeyError ("Config dict missing required key " +:+ dq +:+ "cls" +:+ dq +:+ "!")),
     (from_dict cdict).2).
Proof.
  assert (Hpop : (from_dict cdict).2 !! "cls" = None).
  { unfold from_dict. destruct (cdict !! "cls") as [v|] eqn:E; simpl; [|done].
    destruct v; simpl; apply lookup_delete_eq. }
  split_and!; [|done|].
  - unfold from_dict. destruct (cdict !! "cls") as [v|] eqn:E; simpl.
    + by destruct v.
    + symmetry. by apply delete_id.
  - unfold from_dict at 1. by rewrite Hpop.
Qed.
End FromDict.

(** ** DomainEntity

    The state of a [DomainEntity] is the private attribute [_domain] and,
    for the warnings of the setter of [entity.py], the records its logger
    received at level WARNING. *)

Record DomainEntity : Type := {
  _domain : option domain_ref;
  warnings : list string
}.

(** The operations of the class; [step] dispatches them. *)
Inductive op : Type :=
| SetDomainProperty (domain : option domain_ref)   (* [e.domain = domain] *)
| SetDomain (domain : option domain_ref)           (* [e.set_domain(domain)] *)
| GetDomain
| CheckDomain
| HasDomain
| Setup
| IsSetup
| OnDomainSet
| UpdateTime (clocktime : pyval)
| PostInit (kwargs : pyval)
| Snapshot.

(** [core/entity.py] *)
Module Core.
Section WithTruth.
(** [bool(obj)] of the object at a reference. *)
Variable truth : domain_ref -> bool.

Definition domain (self : DomainEntity) : option domain_ref := _domain self.

Definition on_domain_set : eff DomainEntity () := mret ().

Definition domain_setter (dom : option domain_ref) : eff DomainEntity () :=
  fun self =>
    match dom with
    | None => (Ok (), self)
    | Some d =>
        (* [if self.domain:] *)
        if match domain self with Some held => truth held | None => false end
        then (Raise (RuntimeError "{} already has a domain. Cannot set again!"), self)
        else on_domain_set {| _domain := Some d; warnings := warnings self |}
    end.

Definition set_domain (dom : option domain_ref) : eff DomainEntity () :=
  domain_setter dom.

Definition has_domain (self : DomainEntity) : bool :=
  match domain self with Some _ => true | None => false end.

Definition check_domain : eff DomainEntity bool :=
  fun self =>
    if negb (has_domain self)
    then (Raise (RuntimeError "Domain required for setup of {}"), self)
    else (Ok true, self).

Definition setup : eff DomainEntity () := mret ().
Definition is_setup (self : DomainEntity) : bool := true.
Definition update_time (clocktime : pyval) : eff DomainEntity () := mret ().
Definition post_init (kwargs : pyval) : eff DomainEntity () := mret ().
Definition snapshot : eff DomainEntity () :=
  raise (NotImplementedError "Snapshot of entity {}").

(** One call on the entity; the caller may catch the exception, the
    entity stays as the call left it. *)
Definition step (o : op) (self : DomainEntity) : DomainEntity :=
  match o with
  | SetDomainProperty d => (domain_setter d self).2
  | SetDomain d => (set_domain d self).2
  | GetDomain | HasDomain | IsSetup => self
  | CheckDomain => (check_domain self).2
  | Setup => (setup self).2
  | OnDomainSet => (on_domain_set self).2
  | UpdateTime t => (update_time t self).2
  | PostInit k => (post_init k self).2
  | Snapshot => (snapshot self).2
  end.

Definition run (ops : list op) (self : DomainEntity) : DomainEntity :=
  foldl (fun e o => step o e) self ops.

End WithTruth.
End Core.

(** [entity.py] *)
Module Legacy.
Section WithDomainCls.
(** [bool(obj)] of the object at a reference. *)
Variable truth : domain_ref -> bool.
(** [isinstance(domain, self.domain_cls)] *)
Variable isinstance_domain_cls : domain_ref -> bool.

Definition domain (self : DomainEntity) : option domain_ref := _domain self.

Definition domain_setter (dom : option domain_ref) : eff DomainEntity () :=
  fun self =>
    match dom with
    | None => (Ok (), self)
    | Some d =>
        (* [if self.domain:] *)
        if match domain self with Some held => truth held | None => false end
        then (Raise (RuntimeError "{} already has a domain. Cannot set again!"), self)
        else
          let w := if isinstance_domain_cls d then warnings self
                   else warnings self ++ ["Domain must be an instance of {}, not {}"] in
          (Ok (), {| _domain := Some d; warnings := w |})
    end.

Definition set_domain (dom : option domain_ref) : eff DomainEntity () :=
  domain_setter dom.

Definition has_domain (self : DomainEntity) : bool :=
  match domain self with Some d => isinstance_domain_cls d | None => false end.

Definition check_domain : eff DomainEntity bool :=
  fun self =>
    match domain self with
    | None => (Raise (RuntimeError "Domain required for setup"), self)
    | Some _ => (Ok (has_domain self), self)
    end.

Definition setup : eff DomainEntity () := raise (NotImplementedError "Setup of {}").
Definition update_time (clocktime : pyval) : eff DomainEntity () := mret ().
Definition post_init (kwargs : pyval) : eff DomainEntity () := mret ().

(** The class of [entity.py] has no [is_setup], [on_domain_set] or
    [snapshot]: calling them raises [AttributeError] and changes nothing. *)
Definition step (o : op) (self : DomainEntity) : DomainEntity :=
  match o with
  | SetDomainProperty d => (domain_setter d self).2
  | SetDomain d => (set_domain d self).2
  | GetDomain | HasDomain => self
  | CheckDomain => (check_domain self).2
  | Setup => (setup self).2
  | UpdateTime t => (update_time t self).2
  | PostInit k => (post_init k self).2
  | IsSetup | OnDomainSet | Snapshot => self
  end.

Definition run (ops : list op) (self : DomainEntity) : DomainEntity :=
  foldl (fun e o => step o e) self ops.

End WithDomainCls.
End Legacy.

Lemma core_step_keeps_domain truth o e d :
  _domain e = Some d -> truth d = true -> _domain (Core.step truth o e) = Some d.
Proof.
  intros Hd Ht. destruct o as [[r|]|[r|]| | | | | | | | | ]; simpl; try done;
    unfold Core.set_domain, Core.domain_setter, Core.check_domain,
      Core.has_domain, Core.domain; rewrite ?Hd, ?Ht; done.
Qed.

Lemma legacy_step_keeps_domain truth isinst o e d :
  _domain e = Some d -> truth d = true ->
  _domain (Legacy.step truth isinst o e) = Some d.
Proof.
  intros Hd Ht. destruct o as [[r|]|[r|]| | | | | | | | | ]; simpl; try done;
    unfold Legacy.set_domain, Legacy.domain_setter, Legacy.check_domain,
      Legacy.domain; rewrite ?Hd, ?Ht; done.
Qed.

Lemma core_run_attached truth ops e d :
  _domain e = Some d -> truth d = true -> _domain (Core.run truth ops e) = Some d.
Proof.
  intros Hd Ht. revert e Hd. induction ops as [|o ops IH]; intros e Hd; [done|].
  simpl. apply IH. by apply core_step_keeps_domain.
Qed.

Lemma legacy_run_attached truth isinst ops e d :
  _domain e = Some d -> truth d = true ->
  _domain (Legacy.run truth isinst ops e) = Some d.
Proof.
  intros Hd Ht. revert e Hd. induction ops as [|o ops IH]; intros e Hd; [done|].
  simpl. apply IH. by apply legacy_step_keeps_domain.
Qed.

(** C3. In both versions of the class, assigning [None] to [domain] returns
    without raising and changes nothing, attached or not.  When the object
    the entity holds is true in a condition, as every [SedimentDBLDomain]
    is, assigning a domain raises [RuntimeError] and leaves the entity
    unchanged, and no sequence of calls of the operations of the class
    replaces or clears the reference.  But the setters test
    [if self.domain:] where [has_domain] of [core/entity.py] tests
    [self.domain is not None]: an object that is false in a condition, such
    as the empty tuple, which the setters attach, is replaced by the next
    assignment without an error, although [has_domain] says that a domain is
    attached. *)
Theorem domain_set_once_unless_falsy (truth : domain_ref -> bool) :
  (forall e, Core.domain_setter truth None e = (Ok (), e)) /\
  (forall e d d', _domain e = Some d -> truth d = true ->
     Core.domain_setter truth (Some d') e =
       (Raise (RuntimeError "{} already has a domain. Cannot set again!"), e)) /\
  (forall ops e d, _domain e = Some d -> truth d = true ->
     _domain (Core.run truth ops e) = Some d) /\
  (forall e d d', _domain e = Some d -> truth d = false ->
     Core.has_domain e = true /\
     Core.domain_setter truth (Some d') e =
       (Ok (), {| _domain := Some d'; warnings := warnings e |})) /\
  (forall isinst e, Legacy.domain_setter truth isinst None e = (Ok (), e)) /\
  (forall isinst e d d', _domain e = Some d -> truth d = true ->
     Legacy.domain_setter truth isinst (Some d') e =
       (Raise (RuntimeError "{} already has a domain. Cannot set again!"), e)) /\
  (forall isinst ops e d, _domain e = Some d -> truth d = true ->
     _domain (Legacy.run truth isinst ops e) = Some d) /\
  (forall isinst e d d', _domain e = Some d -> truth d = false ->
     (Legacy.domain_setter truth isinst (Some d') e).1 = Ok () /\
     _domain (Legacy.domain_setter truth isinst (Some d') e).2 = Some d').
Proof.
  split_and!.
  - done.
  - intros e d d' Hd Ht. unfold Core.domain_setter, Core.domain. by rewrite Hd, Ht.
  - intros ops e d. apply core_run_attached.
  - intros e d d' Hd Ht. unfold Core.has_domain, Core.domain_setter, Core.domain.
    by rewrite Hd, Ht.
  - done.
  - intros isinst e d d' Hd Ht. unfold Legacy.domain_setter, Legacy.domain.
    by rewrite Hd, Ht.
  - intros isinst ops e d. apply legacy_run_attached.
  - intros isinst e d d' Hd Ht. unfold Legacy.domain_setter, Legacy.domain.
    by rewrite Hd, Ht.
Qed.

(** The objects of the examples: the object at the reference 0 is the empty
    tuple, the others are domains. *)
Definition truth_but_0 (r : domain_ref) : bool := negb (Nat.eqb r 0).

(** [e.domain = ()] followed by [e.domain = D] leaves [D] attached and
    raises nothing; with a domain in the place of the tuple the second
    assignment raises. *)
Lemma domain_set_once_unless_falsy_witness :
  Core.domain_setter truth_but_0 (Some 2%nat) {| _domain := Some 1%nat; warnings := [] |} =
    (Raise (RuntimeError "{} already has a domain. Cannot set again!"),
     {| _domain := Some 1%nat; warnings := [] |}) /\
  _domain (Core.run truth_but_0 [SetDomain (Some 2%nat); SetDomain None; Setup]
             {| _domain := Some 1%nat; warnings := [] |}) = Some 1%nat /\
  Core.domain_setter truth_but_0 (Some 1%nat) {| _domain := Some 0%nat; warnings := [] |} =
    (Ok (), {| _domain := Some 1%nat; warnings := [] |}) /\
  _domain (Legacy.domain_setter truth_but_0 (fun _ => true) (Some 1%nat)
             {| _domain := Some 0%nat; warnings := [] |}).2 = Some 1%nat.
Proof.
  destruct (domain_set_once_unless_falsy truth_but_0)
    as (_ & Hset & Hrun & Hfalsy & _ & _ & _ & Hfalsy').
  split_and!.
  - apply (Hset _ 1%nat 2%nat); reflexivity.
  - apply (Hrun _ _ 1%nat); reflexivity.
  - apply (Hfalsy {| _domain := Some 0%nat; warnings := [] |} 0%nat 1%nat); reflexivity.
  - apply (Hfalsy' (fun _ => true) {| _domain := Some 0%nat; warnings := [] |} 0%nat 1%nat);
      reflexivity.
Defined.

(** The failing sequence, run from a new entity. *)
Example falsy_domain_replaced :
  Core.run truth_but_0 [SetDomainProperty (Some 0%nat); SetDomainProperty (Some 1%nat)]
    {| _domain := None; warnings := [] |} = {| _domain := Some 1%nat; warnings := [] |} /\
  (Core.domain_setter truth_but_0 (Some 1%nat) {| _domain := Some 0%nat; warnings := [] |}).1 =
    Ok ().
Proof. split; reflexivity. Qed.

(** ** More on the construction from a path *)





Section FromParams.
Context {Cls Inst : Type}.
Variable import_getattr : string -> string -> option Cls.
Variable construct : Cls -> pyval -> result Inst.
Variable post_init : Inst -> option (pyval -> result Inst).

End FromParams.


(** ** More on the attachment *)

(** The objects a sequence of calls tries to attach, in order. *)
Definition assigned (ops : list op) : list domain_ref :=
  omap (fun o => match o with
                 | SetDomainProperty (Some d) | SetDomain (Some d) => Some d
                 | _ => None
                 end) ops.

(** X2. When the objects a sequence of calls assigns are true in a
    condition, as domains are, the domain of an entity that had none is the
    first one the sequence assigns: the later assignments raise and the
    other calls do not touch it.  This holds for both versions of the
    class. *)
Theorem first_domain_wins (truth : domain_ref -> bool) (ops : list op) (e : DomainEntity) :
  _domain e = None ->
  Forall (fun d => truth d = true) (assigned ops) ->
  _domain (Core.run truth ops e) = head (assigned ops) /\
  forall isinst, _domain (Legacy.run truth isinst ops e) = head (assigned ops).
Proof.
  revert e. induction ops as [|o ops IH]; intros e He Hall; [done|].
  assert ((exists d, (o = SetDomainProperty (Some d) \/ o = SetDomain (Some d))) \/
          (assigned (o :: ops) = assigned ops /\ Core.step truth o e = e /\
           forall isinst, Legacy.step truth isinst o e = e)) as [[d Ho]|(Ha & Hc & Hl)].
  { destruct o as [[d|]|[d|]| | | | | | | | | ]; try (left; by eauto);
      right; split_and!; try done;
      unfold Core.step, Core.check_domain, Core.has_domain, Core.domain,
        Legacy.step, Legacy.check_domain, Legacy.domain; simpl; by rewrite ?He. }
  - assert (assigned (o :: ops) = d :: assigned ops) as Ha by by destruct Ho as [-> | ->].
    rewrite Ha in Hall. apply Forall_cons in Hall as [Hd _]. rewrite Ha.
    simpl. split.
    + apply core_run_attached; [|done].
      destruct Ho as [-> | ->]; simpl;
        unfold Core.set_domain, Core.domain_setter, Core.domain; by rewrite He.
    + intros isinst. apply legacy_run_attached; [|done].
      destruct Ho as [-> | ->]; simpl;
        unfold Legacy.set_domain, Legacy.domain_setter, Legacy.domain; by rewrite He.
  - rewrite Ha in Hall |- *. destruct (IH e He Hall) as [IHc IHl].
    simpl. rewrite Hc. split; [done|]. intros isinst. by rewrite Hl.
Qed.

Lemma first_domain_wins_witness :
  _domain (Core.run truth_but_0
             [CheckDomain; SetDomain None; SetDomain (Some 4%nat); SetDomain (Some 7%nat)]
             {| _domain := None; warnings := [] |}) = Some 4%nat.
Proof.
  apply (proj1 (first_domain_wins truth_but_0
                  [CheckDomain; SetDomain None; SetDomain (Some 4%nat); SetDomain (Some 7%nat)]
                  {| _domain := None; warnings := [] |} eq_refl
                  ltac:(repeat constructor))).
Defined.

(** X3. The class of [entity.py] attaches a domain that is not an instance of
    its domain class, with a warning; [check_domain] then returns [False]
    where it raises for an entity without a domain, and [has_domain] is
    false.  The class of [core/entity.py] has no domain class: its
    [check_domain] returns [True] for any attached domain. *)
Theorem wrong_class_attached (truth isinst : domain_ref -> bool) (e : DomainEntity)
    (d : domain_ref) :
  _domain e = None -> isinst d = false ->
  let e' := {| _domain := Some d;
               warnings := warnings e ++ ["Domain must be an instance of {}, not {}"] |} in
  Legacy.domain_setter truth isinst (Some d) e = (Ok (), e') /\
  Legacy.check_domain isinst e' = (Ok false, e') /\
  Legacy.has_domain isinst e' = false /\
  Legacy.check_domain isinst e = (Raise (RuntimeError "Domain required for setup"), e) /\
  Core.check_domain e' = (Ok true, e').
Proof.
  intros He Hd e'. unfold Legacy.domain_setter, Legacy.check_domain, Legacy.has_domain,
    Legacy.domain, Core.check_domain, Core.has_domain, Core.domain.
  rewrite He, Hd. simpl. by rewrite Hd.
Qed.

Lemma wrong_class_attached_witness :
  Legacy.check_domain (fun _ => false)
    {| _domain := Some 1%nat; warnings := ["Domain must be an instance of {}, not {}"] |} =
  (Ok false,
   {| _domain := Some 1%nat; warnings := ["Domain must be an instance of {}, not {}"] |}).
Proof.
  apply (wrong_class_attached truth_but_0 (fun _ => false)
           {| _domain := None; warnings := [] |} 1%nat eq_refl eq_refl).
Defined.

End Entity.

(** * The domain: [domain.py] *)

Module Domain.

(** Comparison of two values of variables. *)
Definition Qltb (x y : Q) : bool := negb (Qle_bool y x).

(** [float(n)] for an integer: the nearest float, ties to even. *)
Definition float_of_Z (n : Z) : float := SF2Prim (binary_normalize prec emax n 0 false).

(** [int(x)] for a float, read off its sign, mantissa and exponent:
    truncation towards zero.  An infinity raises [OverflowError] and NaN
    raises [ValueError]. *)
Definition int (x : float) : result Z :=
  match Prim2SF x with
  | S754_zero _ => Ok 0
  | S754_finite s m e =>
      let n := if 0 <=? e then Z.pos m * 2 ^ e else Z.pos m / 2 ^ (- e) in
      Ok (if s then - n else n)
  | S754_infinity _ => Raise (OverflowError "cannot convert float infinity to integer")
  | S754_nan => Raise (ValueError "cannot convert float NaN to integer")
  end.

(** The sign of a float; NaN has none. *)
Definition sf_sign (x : spec_float) : option bool :=
  match x with
  | S754_zero s | S754_infinity s | S754_finite s _ _ => Some s
  | S754_nan => None
  end.

(** [fipy]'s [UniformGrid1D(dx, nx)]; its [shape] is [(nx,)]. *)
Record Mesh : Type := {
  dx : float;
  nx : Z
}.

Definition numberOfCells (m : Mesh) : nat := Z.to_nat (nx m).

(** Cell centres, [mesh.x()]: [(arange(nx) + 0.5) * dx]. *)
Definition mesh_x (m : Mesh) : list float :=
  (fun i : nat => ((float_of_Z (Z.of_nat i) + 0.5) * dx m)%float) <$> seq 0 (numberOfCells m).

(** Where a constraint of a [CellVariable] applies: the faces at an end of
    the grid, or a mask over the cells. *)
Inductive mask : Type :=
| facesLeft
| facesRight
| cells (m : list bool).

(** [fipy]'s [CellVariable], as far as the domain and the variables use
    it. *)
Record CellVariable : Type := {
  cv_name : string;
  cv_value : list Q;
  cv_unit : option string;
  cv_old : option (list Q);
  cv_constraints : list (Q * mask)
}.

(** [CellVariable(mesh=mesh, name=name, value=value, unit=unit,
    hasOld=hasOld)] for a value already of the shape of the mesh; with
    [hasOld] the variable keeps a copy of its value as the old one. *)
Definition new_CellVariable (name : string) (value : list Q) (unit : option string)
    (hasOld : bool) : CellVariable :=
  {| cv_name := name; cv_value := value; cv_unit := unit;
     cv_old := if hasOld then Some value else None;
     cv_constraints := [] |}.

Record SedimentDBLDomain : Type := {
  VARS : gmap string CellVariable;
  mesh : option Mesh;
  sediment_Ncells : Z;
  DBL_Ncells : Z;
  domain_Ncells : Z;
  cell_size : float;
  sediment_length : float;
  DBL_length : float;
  sediment_interface : float;
  domain_length : float;
  idx_surface : Z;
  depths_um : list float;
  sediment_porosity : option Q
}.

Definition set_VARS (v : gmap string CellVariable) (d : SedimentDBLDomain) : SedimentDBLDomain :=
  {| VARS := v; mesh := mesh d; sediment_Ncells := sediment_Ncells d;
     DBL_Ncells := DBL_Ncells d; domain_Ncells := domain_Ncells d;
     cell_size := cell_size d; sediment_length := sediment_length d;
     DBL_length := DBL_length d; sediment_interface := sediment_interface d;
     domain_length := domain_length d; idx_surface := idx_surface d;
     depths_um := depths_um d; sediment_porosity := sediment_porosity d |}.

Definition set_sediment_porosity (p : Q) (d : SedimentDBLDomain) : SedimentDBLDomain :=
  {| VARS := VARS d; mesh := mesh d; sediment_Ncells := sediment_Ncells d;
     DBL_Ncells := DBL_Ncells d; domain_Ncells := domain_Ncells d;
     cell_size := cell_size d; sediment_length := sediment_length d;
     DBL_length := DBL_length d; sediment_interface := sediment_interface d;
     domain_length := domain_length d; idx_surface := idx_surface d;
     depths_um := depths_um d; sediment_porosity := Some p |}.

(** The keyword arguments of [create_var]: [value] is [PyNone] when it is
    not given. *)
Record var_kwargs : Type := {
  kw_value : pyval;
  kw_unit : option string;
  kw_hasOld : bool
}.

(** [a[i]]: a negative index counts from the end. *)
Definition py_index {A} (a : list A) (i : Z) : option A :=
  if i <? 0
  then (if Z.of_nat (length a) + i <? 0 then None else a !! Z.to_nat (Z.of_nat (length a) + i))
  else a !! Z.to_nat i.

(** [create_mesh]: the grid in SI units (lengths are stored in mm, and
    [numericValue] multiplies by the factor 0.001 of the unit), and the
    depths in micrometres with zero at the surface.  The array [distances]
    is not modelled: nothing here reads it. *)
Definition create_mesh : eff SedimentDBLDomain () := fun self =>
  let m := {| dx := (cell_size self * 0.001)%float; nx := domain_Ncells self |} in
  let Z := mesh_x m in
  match py_index Z (idx_surface self) with
  | None => (Raise (IndexError "index out of bounds"),
             {| VARS := VARS self; mesh := Some m; sediment_Ncells := sediment_Ncells self;
                DBL_Ncells := DBL_Ncells self; domain_Ncells := domain_Ncells self;
                cell_size := cell_size self; sediment_length := sediment_length self;
                DBL_length := DBL_length self; sediment_interface := sediment_interface self;
                domain_length := domain_length self; idx_surface := idx_surface self;
                depths_um := depths_um self; sediment_porosity := sediment_porosity self |})
  | Some z0 =>
      (Ok (),
       {| VARS := VARS self; mesh := Some m; sediment_Ncells := sediment_Ncells self;
          DBL_Ncells := DBL_Ncells self; domain_Ncells := domain_Ncells self;
          cell_size := cell_size self; sediment_length := sediment_length self;
          DBL_length := DBL_length self; sediment_interface := sediment_interface self;
          domain_length := domain_length self; idx_surface := idx_surface self;
          depths_um := (fun z => ((z - z0) * 1000000)%float) <$> Z;
          sediment_porosity := sediment_porosity self |})
  end.

(** [value *= numerix.ones(self.mesh.shape)]: the value times an array of
    ones, by the broadcasting rules of numpy.  The result is the array and
    the unit the value carries. *)
Definition times_ones (xs : list Q) (n : nat) : result (list Q) :=
  if bool_decide (length xs = n) then Ok ((fun x => (x * 1)%Q) <$> xs)
  else match xs with
       | [x] => Ok ((fun one => (x * one)%Q) <$> replicate n 1%Q)
       | _ => Raise (ValueError "operands could not be broadcast together")
       end.

Definition as_number (v : pyval) : option Q :=
  match v with PyNum q => Some q | _ => None end.

Definition broadcast (value : pyval) (n : nat) : result (list Q * option string) :=
  match value with
  | PyNum q => Ok ((fun one => (q * one)%Q) <$> replicate n 1%Q, None)
  | PyPhys q u => Ok ((fun one => (q * one)%Q) <$> replicate n 1%Q, Some u)
  | PyArr xs => arr ← times_ones xs n; Ok (arr, None)
  | PyPhysArr xs u => arr ← times_ones xs n; Ok (arr, Some u)
  | PyList xs | PyTuple xs =>
      match mapM as_number xs with
      | Some qs => arr ← times_ones qs n; Ok (arr, None)
      | None => Raise (ValueError "Value {} could not be cast numerically")
      end
  | PyNone | PyStr _ | PyDict _ => Raise (ValueError "Value {} could not be cast numerically")
  end.

(** [value.shape], for the values that have the attribute. *)
Definition shape (value : pyval) : option (list nat) :=
  match value with
  | PyArr xs | PyPhysArr xs _ => Some [length xs]
  | PyPhys _ _ => Some []
  | _ => None
  end.

Definition create_var (name : string) (kwargs : var_kwargs) : eff SedimentDBLDomain CellVariable :=
  fun self =>
    match mesh self with
    | None => (Raise (RuntimeError "Cannot create cell variable without mesh!"), self)
    | Some m =>
        if bool_decide (name = EmptyString)
        then (Raise (ValueError "Name must have len > 0"), self)
        else if bool_decide (is_Some (VARS self !! name))
        then (Raise (RuntimeError "Domain variable {} already exists!"), self)
        else
          let value := match kw_value kwargs with PyNone => PyNum 0 | v => v end in
          if match shape value with
             | Some sh => negb (bool_decide (sh = []) || bool_decide (sh = [numberOfCells m]))
             | None => false
             end
          then (Raise (ValueError "Value shape {} not compatible for mesh {}"), self)
          else
            match broadcast value (numberOfCells m) with
            | Raise e => (Raise e, self)
            | Ok (arr, vunit) =>
                let unit := match vunit with Some u => Some u | None => kw_unit kwargs end in
                let var := new_CellVariable name arr unit (kw_hasOld kwargs) in
                (Ok var, set_VARS (<[name := var]> (VARS self)) self)
            end
    end.

(** [a[start:stop] = v] on an array of length [n]: a negative bound counts
    from the end, and bounds are clipped to the array. *)
Definition slice_bound (n : nat) (i : Z) : nat :=
  if i <? 0 then Z.to_nat (Z.max 0 (Z.of_nat n + i)) else Z.to_nat (Z.min i (Z.of_nat n)).

Definition slice_assign {A} (start stop : option Z) (v : A) (a : list A) : list A :=
  let n := length a in
  let lo := from_option (slice_bound n) 0%nat start in
  let hi := from_option (slice_bound n) n stop in
  imap (fun i x => if bool_decide (lo <= i < hi)%nat then v else x) a.

Definition var_setitem (start stop : option Z) (v : Q) (P : CellVariable) : CellVariable :=
  {| cv_name := cv_name P; cv_value := slice_assign start stop v (cv_value P);
     cv_unit := cv_unit P; cv_old := cv_old P; cv_constraints := cv_constraints P |}.

Definition set_porosity (porosity : Q) : eff SedimentDBLDomain CellVariable := fun self =>
  if negb (Qltb (1 # 10) porosity && Qltb porosity (9 # 10))
  then (Raise (ValueError "Sediment porosity={} should be between (0.1, 0.9)"), self)
  else
    let created :=
      match VARS self !! "porosity" with
      | Some P => (Ok P, self)
      | None => create_var "porosity" {| kw_value := PyNum 1; kw_unit := None; kw_hasOld := false |} self
      end in
    match created with
    | (Raise e, self) => (Raise e, self)
    | (Ok P, self) =>
        let self := set_sediment_porosity porosity self in
        let P := var_setitem None (Some (idx_surface self)) 1 P in
        let P := var_setitem (Some (idx_surface self)) None porosity P in
        (* [P] is the object stored in [VARS]: the assignments show there *)
        (Ok P, set_VARS (<["porosity" := P]> (VARS self)) self)
    end.

(** [SedimentDBLDomain(cell_size, sediment_length, dbl_length, porosity)],
    lengths as floats in mm.  The quotients are float divisions, as numpy
    computes them: a zero cell size gives an infinite quotient, which
    passes the assertion and has no [int]. *)
Definition init (cell_size sediment_length dbl_length : float) (porosity : Q) :
    result SedimentDBLDomain :=
  if negb (0 <? sediment_length)%float
  then Raise (AssertionError "Sediment length should be positive")
  else if negb (0 <=? dbl_length)%float
  then Raise (AssertionError "DBL length should be positive or zero")
  else if negb (10 <=? sediment_length / cell_size)%float
  then Raise (AssertionError "Sediment length {} too small for cell size {}")
  else
    sediment_Ncells ← int (sediment_length / cell_size);
    DBL_Ncells ← int (dbl_length / cell_size);
    let domain_Ncells := sediment_Ncells + DBL_Ncells in
    let sediment_length := (float_of_Z sediment_Ncells * cell_size)%float in
    let DBL_length := (float_of_Z DBL_Ncells * cell_size)%float in
    let self :=
      {| VARS := ∅; mesh := None;
         sediment_Ncells := sediment_Ncells; DBL_Ncells := DBL_Ncells;
         domain_Ncells := domain_Ncells; cell_size := cell_size;
         sediment_length := sediment_length; DBL_length := DBL_length;
         sediment_interface := DBL_length;
         domain_length := (sediment_length + DBL_length)%float;
         idx_surface := DBL_Ncells; depths_um := []; sediment_porosity := None |} in
    match create_mesh self with
    | (Raise e, _) => Raise e
    | (Ok _, self) =>
        match set_porosity porosity self with
        | (Raise e, _) => Raise e
        | (Ok _, self) => Ok self
        end
    end.

(** [__getitem__], [var_in_sediment] and [var_in_DBL] *)
Definition getitem (item : string) (self : SedimentDBLDomain) : result CellVariable :=
  match VARS self !! item with
  | Some v => Ok v
  | None => Raise (KeyError item)
  end.

Definition var_in_sediment (vname : string) (self : SedimentDBLDomain) : result (list Q) :=
  v ← getitem vname self;
  Ok (drop (slice_bound (length (cv_value v)) (idx_surface self)) (cv_value v)).

Definition var_in_DBL (vname : string) (self : SedimentDBLDomain) : result (list Q) :=
  v ← getitem vname self;
  Ok (take (slice_bound (length (cv_value v)) (idx_surface self)) (cv_value v)).

(** The domains a program can hold: a constructed one, after any calls of
    [create_var] and [set_porosity], whatever their outcome. *)
Inductive reachable : SedimentDBLDomain -> Prop :=
| reach_init c s l p d :
    init c s l p = Ok d -> reachable d
| reach_create_var d name kwargs r d' :
    reachable d -> create_var name kwargs d = (r, d') -> reachable d'
| reach_set_porosity d p r d' :
    reachable d -> set_porosity p d = (r, d') -> reachable d'
| reach_var_update d name v v' :
    (* a holder of a registered variable changes it in place; the shape of
       a [CellVariable] is that of its mesh *)
    reachable d -> VARS d !! name = Some v ->
    length (cv_value v') = length (cv_value v) ->
    reachable (set_VARS (<[name := v']> (VARS d)) d).

(** What the calls after the construction leave alone. *)
Definition geometry (d : SedimentDBLDomain) : Z * Z * Z * float * float * float * Z :=
  (sediment_Ncells d, DBL_Ncells d, domain_Ncells d, cell_size d,
   sediment_length d, DBL_length d, idx_surface d).

Lemma Qltb_lt x y : Qltb x y = true <-> (x < y)%Q.
Proof.
  unfold Qltb. rewrite negb_true_iff. split.
  - intros H. apply Qnot_le_lt. intros Hle. apply Qle_bool_iff in Hle. congruence.
  - intros H. destruct (Qle_bool y x) eqn:E; [|done].
    apply Qle_bool_iff in E. by apply Qlt_not_le in H.
Qed.

Lemma Qmult_1_r_eq (q : Q) : (q * 1)%Q = q.
Proof.
  destruct q as [a b]. unfold Qmult. simpl. by rewrite Z.mul_1_r, Pos.mul_1_r.
Qed.

Lemma create_mesh_frame d r d' :
  create_mesh d = (r, d') -> geometry d' = geometry d /\ VARS d' = VARS d.
Proof.
  unfold create_mesh. destruct (py_index _ _); intros [= <- <-]; done.
Qed.

Lemma create_var_frame name kwargs d r d' :
  create_var name kwargs d = (r, d') -> geometry d' = geometry d /\ mesh d' = mesh d.
Proof.
  unfold create_var. intros H.
  repeat (case_match; simplify_eq); done.
Qed.

Lemma set_porosity_frame p d r d' :
  set_porosity p d = (r, d') -> geometry d' = geometry d /\ mesh d' = mesh d.
Proof.
  unfold set_porosity. intros H.
  destruct (negb _); [by simplify_eq|].
  destruct (VARS d !! "porosity") as [P|] eqn:EP; [by simplify_eq|].
  destruct (create_var _ _ d) as [[P|e] d1] eqn:EC; simplify_eq;
    by apply create_var_frame in EC.
Qed.

(** *** Floats: what the assertions of the constructor give *)

Lemma digits2_pos_lower m : 2 ^ (Z.pos (digits2_pos m) - 1) <= Z.pos m.
Proof.
  induction m as [m IH|m IH|]; simpl digits2_pos.
  - rewrite Pos2Z.inj_succ. replace (Z.succ (Z.pos (digits2_pos m)) - 1) with
      (Z.succ (Z.pos (digits2_pos m) - 1)) by lia.
    rewrite Z.pow_succ_r by lia. lia.
  - rewrite Pos2Z.inj_succ. replace (Z.succ (Z.pos (digits2_pos m)) - 1) with
      (Z.succ (Z.pos (digits2_pos m) - 1)) by lia.
    rewrite Z.pow_succ_r by lia. lia.
  - simpl. lia.
Qed.

(** The sign of a rounded result is the sign given. *)
Lemma binary_round_aux_sign sx mx ex lx :
  match binary_round_aux prec emax sx mx ex lx with
  | S754_zero s | S754_infinity s | S754_finite s _ _ => s = sx
  | S754_nan => True
  end.
Proof.
  unfold binary_round_aux.
  destruct (shr_fexp _ _ _ _ _) as [mrs' e'].
  destruct (shr_fexp _ _ _ _ _) as [mrs'' e''].
  destruct (shr_m mrs''); [done| |done].
  by destruct (_ <=? _).
Qed.

Lemma int_ge_10 x n : (10 <=? x)%float = true -> int x = Ok n -> 10 <= n.
Proof.
  rewrite leb_spec. unfold int. pose proof (Prim2SF_valid x) as Hv.
  change (Prim2SF 10) with (S754_finite false 5629499534213120 (-49)).
  unfold SFleb, SFcompare.
  destruct (Prim2SF x) as [s|s| |s m e].
  - simpl. done.
  - destruct s; simpl; done.
  - simpl. done.
  - destruct s; [simpl; done|].
    simpl in Hv. apply andb_prop in Hv as [Hc _].
    unfold canonical_mantissa, fexp in Hc. apply Z.eqb_eq in Hc.
    pose proof (digits2_pos_lower m) as Hm.
    intros Hle [= <-].
    assert (-49 <= e) as He.
    { destruct (Z.compare_spec (-49) e); first [lia|done]. }
    assert (Z.pos (digits2_pos m) = 53) as Hd by (unfold emin, prec, emax in Hc; lia).
    rewrite Hd in Hm. change (2 ^ (53 - 1)) with 4503599627370496 in Hm.
    destruct (Z.leb_spec 0 e) as [He0|He0].
    + assert (1 <= 2 ^ e) by (apply (Z.pow_le_mono_r 2 0 e); lia). nia.
    + destruct (Z.compare_spec (-49) e) as [<-|Hlt|Hgt]; [| |lia].
      * assert (5629499534213120 <= Z.pos m) as Hm10.
        { change (PosDef.Pos.compare_cont Eq 5629499534213120 m)
            with (5629499534213120 ?= m)%positive in Hle.
          destruct (Pos.compare_spec 5629499534213120 m); [lia|lia|done]. }
        change (2 ^ (- -49)) with 562949953421312.
        apply Z.div_le_lower_bound; lia.
      * assert (2 ^ (- e) <= 2 ^ 48) as Hp by (apply Z.pow_le_mono_r; lia).
        assert (0 < 2 ^ (- e)) by (apply Z.pow_pos_nonneg; lia).
        change (2 ^ 48) with 281474976710656 in Hp.
        apply Z.div_le_lower_bound; [lia|]. nia.
Qed.

Lemma SFdiv_sign x y s :
  sf_sign (SF64div x y) = Some s ->
  exists sx sy, sf_sign x = Some sx /\ sf_sign y = Some sy /\ s = xorb sx sy.
Proof.
  destruct x as [sx|sx| |sx mx ex], y as [sy|sy| |sy my ey]; simpl; try done;
    try (intros [= <-]; by eauto).
  unfold SF64div, SFdiv.
  destruct (SFdiv_core_binary _ _ _ _ _ _) as [[mz ez] lz].
  pose proof (binary_round_aux_sign (xorb sx sy) mz ez lz) as H.
  destruct (binary_round_aux _ _ _ _ _ _); simpl; try done; intros [= <-]; eauto.
Qed.

Lemma int_sign x n s :
  int x = Ok n -> sf_sign (Prim2SF x) = Some s -> if s then n <= 0 else 0 <= n.
Proof.
  unfold int. destruct (Prim2SF x) as [s'|s'| |s' m e]; simpl; try done.
  - intros [= <-] [= <-]. by destruct s'.
  - intros [= <-] [= <-].
    assert (0 <= (if 0 <=? e then Z.pos m * 2 ^ e else Z.pos m / 2 ^ (- e))).
    { destruct (Z.leb_spec 0 e).
      - assert (0 <= 2 ^ e) by (apply Z.pow_nonneg; lia). nia.
      - apply Z.div_pos; [lia|]. apply Z.pow_pos_nonneg; lia. }
    destruct s'; lia.
Qed.

Lemma leb_10_sign x : (10 <=? x)%float = true -> sf_sign (Prim2SF x) = Some false.
Proof.
  rewrite leb_spec. change (Prim2SF 10) with (S754_finite false 5629499534213120 (-49)).
  unfold SFleb, SFcompare. destruct (Prim2SF x) as [s|s| |s m e]; simpl; try done;
    by destruct s.
Qed.

Lemma ltb_0_sign x : (0 <? x)%float = true -> sf_sign (Prim2SF x) = Some false.
Proof.
  rewrite ltb_spec. change (Prim2SF 0) with (S754_zero false).
  unfold SFltb, SFcompare. destruct (Prim2SF x) as [s|s| |s m e]; simpl; try done;
    by destruct s.
Qed.

Lemma leb_0_sign x :
  (0 <=? x)%float = true ->
  sf_sign (Prim2SF x) = Some false \/ Prim2SF x = S754_zero true.
Proof.
  rewrite leb_spec. change (Prim2SF 0) with (S754_zero false).
  unfold SFleb, SFcompare. destruct (Prim2SF x) as [s|s| |s m e]; simpl; try done;
    destruct s; auto; done.
Qed.

(** The number of DBL cells is not negative: the sediment length is
    positive and its quotient by the cell size is, so the cell size has no
    negative sign, and the DBL length has none either. *)
Lemma int_quotient_nonneg s l c n :
  (0 <? s)%float = true -> (0 <=? l)%float = true -> (10 <=? s / c)%float = true ->
  int (l / c) = Ok n -> 0 <= n.
Proof.
  intros Hs Hl H10 Hi. apply ltb_0_sign in Hs. apply leb_10_sign in H10.
  rewrite div_spec in H10. apply SFdiv_sign in H10 as (sx & sc & Hsx & Hsc & Hx).
  rewrite Hs in Hsx. injection Hsx as <-. simpl in Hx. subst sc.
  destruct (sf_sign (Prim2SF (l / c))) as [sq|] eqn:Hq.
  - pose proof (int_sign _ _ _ Hi Hq) as Hn.
    rewrite div_spec in Hq. apply SFdiv_sign in Hq as (sl & sc & Hsl & Hsc' & ->).
    rewrite Hsc in Hsc'. injection Hsc' as <-.
    apply leb_0_sign in Hl as [Hl|Hl].
    + rewrite Hl in Hsl. injection Hsl as <-. done.
    + revert Hi. unfold int. rewrite div_spec, Hl.
      destruct (Prim2SF c) as [s'|s'| |s' m e]; simpl; try done; by intros [= <-].
  - revert Hi Hq. unfold int. by destruct (Prim2SF (l / c)).
Qed.


(** C4. Every constructed domain has the numbers of cells given by the
    truncated quotients of the lengths by the cell size, the quotients
    being the float divisions of the code; it stores the lengths as these
    numbers times the cell size, and has its surface index at the number of
    DBL cells; and the domain of cell size 0.1 mm, sediment length 10 mm
    and DBL length 1 mm is constructed, with 100 sediment cells, 10 DBL
    cells and surface index 10. *)
Theorem init_cells :
  (forall c s l p d, init c s l p = Ok d ->
     int (s / c) = Ok (sediment_Ncells d) /\
     int (l / c) = Ok (DBL_Ncells d) /\
     cell_size d = c /\
     sediment_length d = (float_of_Z (sediment_Ncells d) * cell_size d)%float /\
     DBL_length d = (float_of_Z (DBL_Ncells d) * cell_size d)%float /\
     idx_surface d = DBL_Ncells d) /\
  (exists d, init 0.1 10 1 (6 # 10) = Ok d /\
     sediment_Ncells d = 100 /\ DBL_Ncells d = 10 /\ idx_surface d = 10).
Proof.
  split.
  - intros c s l p d. unfold init.
    destruct (negb (0 <? s)%float); [done|].
    destruct (negb (0 <=? l)%float); [done|].
    destruct (negb (10 <=? s / c)%float); [done|].
    destruct (int (s / c)) as [ns|]; [|done].
    destruct (int (l / c)) as [nl|]; [|done].
    cbn [mbind result_bind].
    destruct (create_mesh _) as [[[]|e] d1] eqn:EM; [|done].
    destruct (set_porosity p d1) as [[P|e] d2] eqn:EP; [|done].
    intros [= <-].
    apply create_mesh_frame in EM as [Hg _].
    apply set_porosity_frame in EP as [Hg' _].
    rewrite Hg in Hg'. unfold geometry in Hg'. simpl in Hg'.
    injection Hg' as E1 E2 E3 E4 E5 E6 E7.
    by rewrite E1, E2, E4, E5, E6, E7.
  - eexists. split; [vm_compute; reflexivity|]. by vm_compute.
Qed.

Lemma init_cells_witness :
  exists d, init 0.1 10 1 (6 # 10) = Ok d /\
    int (10 / 0.1) = Ok (sediment_Ncells d) /\
    sediment_length d = (float_of_Z (sediment_Ncells d) * cell_size d)%float.
Proof.
  destruct init_cells as [Hgen (d & Hd & _)].
  exists d. split; [exact Hd|].
  destruct (Hgen _ _ _ _ _ Hd) as (H1 & _ & _ & H4 & _).
  split; [exact H1 | exact H4].
Defined.

(** The quotients are those of the floats: 0.3 / 0.1 is just below 3 and
    gives two DBL cells, 0.7 / 0.07 is just below 10 and fails the
    assertion on the sediment, and a zero cell size gives an infinite
    quotient. *)
Example init_float_quotients :
  (exists d, init 0.1 10 0.3 (6 # 10) = Ok d /\ DBL_Ncells d = 2) /\
  init 0.07 0.7 1 (6 # 10) =
    Raise (AssertionError "Sediment length {} too small for cell size {}") /\
  init 0 10 1 (6 # 10) = Raise (OverflowError "cannot convert float infinity to integer").
Proof.
  split; [eexists; split; vm_compute; reflexivity|]. split; vm_compute; reflexivity.
Qed.

(** The values [create_var] takes without a cast: nothing, a number, or an
    array of the shape of the mesh. *)
Definition well_shaped (value : pyval) (n : nat) : Prop :=
  match value with
  | PyNone | PyNum _ | PyPhys _ _ => True
  | PyArr xs | PyPhysArr xs _ => length xs = n
  | _ => False
  end.

(** The array a well-shaped value stands for, on [n] cells. *)
Definition cells_of (value : pyval) (n : nat) : list Q :=
  match value with
  | PyNum q | PyPhys q _ => replicate n q
  | PyArr xs | PyPhysArr xs _ => xs
  | _ => replicate n 0%Q
  end.

Lemma scalar_times_ones q n :
  (fun one => (q * one)%Q) <$> replicate n 1%Q = replicate n q.
Proof. rewrite fmap_replicate. by rewrite Qmult_1_r_eq. Qed.

Lemma times_ones_length xs n arr : times_ones xs n = Ok arr -> length arr = n.
Proof.
  unfold times_ones. case_bool_decide as Hn.
  - intros [= <-]. by rewrite length_fmap.
  - destruct xs as [|x [|y xs]]; intros [= <-].
    by rewrite length_fmap, length_replicate.
Qed.

Lemma times_ones_same xs n : length xs = n -> times_ones xs n = Ok xs.
Proof.
  intros Hn. unfold times_ones. rewrite bool_decide_eq_true_2 by done.
  f_equal. induction xs as [|x xs IH] in n, Hn |- *; [done|].
  simpl. rewrite Qmult_1_r_eq. f_equal. by apply (IH (length xs)).
Qed.

Lemma broadcast_length value n arr u :
  broadcast value n = Ok (arr, u) -> length arr = n.
Proof.
  destruct value; simpl; try done.
  - intros [= <- <-]. by rewrite length_fmap, length_replicate.
  - destruct (mapM as_number xs); [|done].
    destruct (times_ones _ _) eqn:E; [|done]. intros [= <- <-].
    by apply times_ones_length in E.
  - destruct (mapM as_number xs); [|done].
    destruct (times_ones _ _) eqn:E; [|done]. intros [= <- <-].
    by apply times_ones_length in E.
  - destruct (times_ones _ _) eqn:E; [|done]. intros [= <- <-].
    by apply times_ones_length in E.
  - intros [= <- <-]. by rewrite length_fmap, length_replicate.
  - destruct (times_ones _ _) eqn:E; [|done]. intros [= <- <-].
    by apply times_ones_length in E.
Qed.

Lemma broadcast_well_shaped value n :
  value <> PyNone -> well_shaped value n ->
  exists u, broadcast value n = Ok (cells_of value n, u).
Proof.
  destruct value; simpl; try done; intros _ Hn.
  - eexists. by rewrite scalar_times_ones.
  - eexists. by rewrite times_ones_same.
  - eexists. by rewrite scalar_times_ones.
  - eexists. by rewrite times_ones_same.
Qed.

Lemma create_var_ok name kwargs d var d' :
  create_var name kwargs d = (Ok var, d') ->
  exists m, mesh d = Some m /\ name <> EmptyString /\ VARS d !! name = None /\
    length (cv_value var) = numberOfCells m /\ cv_name var = name /\
    VARS d' = <[name := var]> (VARS d).
Proof.
  unfold create_var. destruct (mesh d) as [m|]; [|done].
  case_bool_decide as Hname; [done|].
  case_bool_decide as Hreg; [done|].
  case_match; [done|].
  destruct (broadcast _ _) as [[arr vu]|] eqn:Hb; [|done].
  intros [= <- <-]. exists m. split_and!; try done.
  - destruct (VARS d !! name) eqn:E; [|done]. destruct Hreg. by eexists.
  - simpl. by apply broadcast_length in Hb.
Qed.

(** C5. [create_var] raises, and registers nothing, when the domain has no
    mesh, when the name is empty and when the name is registered.  A call
    that returns was made on a domain with a mesh, for a non-empty name that
    was not registered; the variable it returns has one value per cell of
    the mesh and is what the registry then holds under the name, the other
    entries being as before.  For a name that is new, a number is repeated
    over the cells and an array of the shape of the mesh is taken as it is.
    The registry never gets a second entry for a name: a name that is
    registered makes the call fail, whatever the other arguments. *)
Theorem create_var_spec (name : string) (kwargs : var_kwargs) (d : SedimentDBLDomain) :
  (mesh d = None ->
     create_var name kwargs d =
       (Raise (RuntimeError "Cannot create cell variable without mesh!"), d)) /\
  (name = EmptyString ->
     is_ok (create_var name kwargs d).1 = false /\ (create_var name kwargs d).2 = d) /\
  (is_Some (VARS d !! name) ->
     is_ok (create_var name kwargs d).1 = false /\ (create_var name kwargs d).2 = d) /\
  (forall var d', create_var name kwargs d = (Ok var, d') ->
     exists m, mesh d = Some m /\ name <> EmptyString /\ VARS d !! name = None /\
       length (cv_value var) = numberOfCells m /\
       VARS d' = <[name := var]> (VARS d) /\
       VARS d' !! name = Some var /\
       (forall other, other <> name -> VARS d' !! other = VARS d !! other)) /\
  (forall m, mesh d = Some m -> name <> EmptyString -> VARS d !! name = None ->
     well_shaped (kw_value kwargs) (numberOfCells m) ->
     exists var d', create_var name kwargs d = (Ok var, d') /\
       cv_value var = cells_of (kw_value kwargs) (numberOfCells m)).
Proof.
  split_and!.
  - intros Hm. unfold create_var. by rewrite Hm.
  - intros ->. unfold create_var. by destruct (mesh d).
  - intros Hreg. unfold create_var. destruct (mesh d); [|done].
    case_bool_decide; [done|]. by rewrite bool_decide_eq_true_2.
  - intros var d' H. apply create_var_ok in H as (m & Hm & Hn & Hfresh & Hlen & _ & HV).
    exists m. split_and!; try done.
    + rewrite HV. apply lookup_insert_eq.
    + intros other Ho. rewrite HV. by apply lookup_insert_ne.
  - intros m Hm Hn Hfresh Hshape. unfold create_var. rewrite Hm.
    rewrite bool_decide_eq_false_2 by done.
    rewrite bool_decide_eq_false_2 by (rewrite Hfresh; by intros [? ?]).
    destruct (kw_value kwargs) as [| q | | | | | xs | q u | xs u] eqn:Hv;
      simpl in Hshape; try done; simpl.
    + rewrite scalar_times_ones. by eexists _, _.
    + rewrite scalar_times_ones. by eexists _, _.
    + rewrite bool_decide_eq_true_2 by by rewrite Hshape.
      simpl. rewrite times_ones_same by done. simpl. by eexists _, _.
    + rewrite scalar_times_ones. by eexists _, _.
    + rewrite bool_decide_eq_true_2 by by rewrite Hshape.
      simpl. rewrite times_ones_same by done. simpl. by eexists _, _.
Qed.

(** [SedimentDBLDomain()], the domain of the default arguments. *)
Definition ok_value {A} (r : result A) : is_ok r = true -> A :=
  match r with
  | Ok a => fun _ => a
  | Raise _ => fun H => False_rect A (eq_ind false (fun b => if b then False else True) I true H)
  end.

Definition default_domain : SedimentDBLDomain :=
  ok_value (init 0.1 10 1 (6 # 10)) eq_refl.

Lemma create_var_spec_witness :
  exists var d',
    create_var "oxy" {| kw_value := PyNum (33 # 10); kw_unit := Some "mol/l"; kw_hasOld := false |}
      default_domain = (Ok var, d') /\
    cv_value var = replicate 110 (33 # 10)%Q.
Proof.
  destruct (create_var_spec "oxy"
              {| kw_value := PyNum (33 # 10); kw_unit := Some "mol/l"; kw_hasOld := false |}
              default_domain) as (_ & _ & _ & _ & Hs).
  apply (Hs {| dx := (0.1 * 0.001)%float; nx := 110 |}).
  - vm_compute. reflexivity.
  - discriminate.
  - vm_compute. reflexivity.
  - exact I.
Defined.

(** ** Porosity *)

(** The invariant of the reachable domains that [set_porosity] relies on. *)
Definition wf (d : SedimentDBLDomain) : Prop :=
  exists m, mesh d = Some m /\ nx m = domain_Ncells d /\
    0 <= idx_surface d <= domain_Ncells d /\
    forall P, VARS d !! "porosity" = Some P -> length (cv_value P) = numberOfCells m.

(** The porosity field [P] of the domain [d] for the sediment porosity [p]:
    exactly 1 on the cells before the surface index, [p] from there on. *)
Definition porosity_is (d : SedimentDBLDomain) (P : CellVariable) (p : Q) : Prop :=
  VARS d !! "porosity" = Some P /\
  sediment_porosity d = Some p /\
  length (cv_value P) = Z.to_nat (domain_Ncells d) /\
  (forall i, (i < Z.to_nat (idx_surface d))%nat -> cv_value P !! i = Some 1%Q) /\
  (forall i, (Z.to_nat (idx_surface d) <= i < Z.to_nat (domain_Ncells d))%nat ->
     cv_value P !! i = Some p).

Lemma slice_assign_length {A} start stop (v : A) (a : list A) :
  length (slice_assign start stop v a) = length a.
Proof. unfold slice_assign. by rewrite length_imap. Qed.

Lemma slice_bound_in n i : 0 <= i <= Z.of_nat n -> slice_bound n i = Z.to_nat i.
Proof. intros H. unfold slice_bound. destruct (Z.ltb_spec i 0); lia. Qed.

Lemma create_var_porosity_len name kwargs d r d' m :
  mesh d = Some m ->
  (forall P, VARS d !! "porosity" = Some P -> length (cv_value P) = numberOfCells m) ->
  create_var name kwargs d = (r, d') ->
  forall P, VARS d' !! "porosity" = Some P -> length (cv_value P) = numberOfCells m.
Proof.
  intros Hm Hlen H. destruct r as [var|e].
  - apply create_var_ok in H as (m' & Hm' & _ & _ & Hl & _ & HV).
    rewrite Hm in Hm'. injection Hm' as <-. intros P. rewrite HV.
    destruct (decide (name = "porosity")) as [->|Hne].
    + rewrite lookup_insert_eq. by intros [= <-].
    + rewrite lookup_insert_ne by done. apply Hlen.
  - assert (d' = d) as ->; [|done].
    revert H. unfold create_var. repeat (case_match; simplify_eq); congruence.
Qed.

Lemma set_porosity_porosity_len p d r d' m :
  mesh d = Some m ->
  (forall P, VARS d !! "porosity" = Some P -> length (cv_value P) = numberOfCells m) ->
  set_porosity p d = (r, d') ->
  forall P, VARS d' !! "porosity" = Some P -> length (cv_value P) = numberOfCells m.
Proof.
  intros Hm Hlen. unfold set_porosity.
  destruct (negb _); [by intros [= <- <-]|].
  destruct (VARS d !! "porosity") as [P0|] eqn:EP.
  - intros [= <- <-] P. simpl. rewrite lookup_insert_eq. intros [= <-]. simpl.
    rewrite !slice_assign_length. by apply Hlen.
  - destruct (create_var _ _ d) as [[P0|e] d1] eqn:EC.
    + intros [= <- <-] P. simpl. rewrite lookup_insert_eq. intros [= <-]. simpl.
      rewrite !slice_assign_length.
      apply create_var_ok in EC as (m' & Hm' & _ & _ & Hl & _).
      congruence.
    + intros [= <- <-]. eapply create_var_porosity_len; [exact Hm| |exact EC].
      intros P0. by rewrite EP.
Qed.

Lemma init_wf c s l p d : init c s l p = Ok d -> wf d.
Proof.
  unfold init.
  destruct (negb (0 <? s)%float) eqn:Hs; [done|].
  destruct (negb (0 <=? l)%float) eqn:Hl; [done|].
  destruct (negb (10 <=? s / c)%float) eqn:H10; [done|].
  apply negb_false_iff in Hs, Hl, H10.
  destruct (int (s / c)) as [ns|] eqn:Ens; [|done].
  destruct (int (l / c)) as [nl|] eqn:Enl; [|done].
  cbn [mbind result_bind].
  pose proof (int_ge_10 _ _ H10 Ens) as Hns.
  pose proof (int_quotient_nonneg _ _ _ _ Hs Hl H10 Enl) as Hnl.
  destruct (create_mesh _) as [[[]|e] d1] eqn:EM; [|done].
  destruct (set_porosity p d1) as [[P|e] d2] eqn:EP; [|done].
  intros [= <-].
  pose proof (create_mesh_frame _ _ _ EM) as [Hg HV].
  pose proof (set_porosity_frame _ _ _ _ EP) as [Hg' Hm'].
  rewrite Hg in Hg'. unfold geometry in Hg'. simpl in Hg'.
  injection Hg' as E1 E2 E3 E4 E5 E6 E7.
  assert (mesh d1 = Some {| dx := (c * 0.001)%float; nx := ns + nl |}) as Hm1.
  { revert EM. unfold create_mesh. simpl. destruct (py_index _ _); by intros [= <-]. }
  eexists. split; [by rewrite Hm', Hm1|]. simpl.
  split; [by rewrite E3|]. split; [rewrite E7, E3; lia|].
  eapply set_porosity_porosity_len; [exact Hm1| |exact EP].
  intros P0. rewrite HV. simpl. by rewrite lookup_empty.
Qed.

Lemma reachable_wf d : reachable d -> wf d.
Proof.
  induction 1 as [c s l p d Hi | d name kwargs r d' _ IH Hc | d p r d' _ IH Hp
                 | d name v v' _ IH Hv Hlen].
  - by eapply init_wf.
  - destruct IH as (m & Hm & Hnx & Hidx & HP).
    pose proof (create_var_frame _ _ _ _ _ Hc) as [Hg Hm'].
    injection Hg as E1 E2 E3 E4 E5 E6 E7.
    exists m. rewrite Hm', E3, E7. refine (conj Hm (conj Hnx (conj Hidx _))).
    eapply create_var_porosity_len; eauto.
  - destruct IH as (m & Hm & Hnx & Hidx & HP).
    pose proof (set_porosity_frame _ _ _ _ Hp) as [Hg Hm'].
    injection Hg as E1 E2 E3 E4 E5 E6 E7.
    exists m. rewrite Hm', E3, E7. refine (conj Hm (conj Hnx (conj Hidx _))).
    eapply set_porosity_porosity_len; eauto.
  - destruct IH as (m & Hm & Hnx & Hidx & HP).
    exists m. simpl. refine (conj Hm (conj Hnx (conj Hidx _))).
    intros P. destruct (decide (name = "porosity")) as [->|Hne].
    + rewrite lookup_insert_eq. intros [= <-]. rewrite Hlen. by apply HP.
    + rewrite lookup_insert_ne by done. apply HP.
Qed.

Lemma porosity_slices (a : list Q) (idx : Z) (p : Q) :
  0 <= idx <= Z.of_nat (length a) ->
  let a' := slice_assign (Some idx) None p (slice_assign None (Some idx) 1%Q a) in
  length a' = length a /\
  (forall i, (i < Z.to_nat idx)%nat -> a' !! i = Some 1%Q) /\
  (forall i, (Z.to_nat idx <= i < length a)%nat -> a' !! i = Some p).
Proof.
  intros Hidx a'. subst a'. split; [by rewrite !slice_assign_length|].
  unfold slice_assign. rewrite length_imap. simpl.
  rewrite slice_bound_in by done.
  split; intros i Hi.
  - rewrite !list_lookup_imap.
    destruct (lookup_lt_is_Some_2 a i) as [x Hx]; [lia|]. rewrite Hx. simpl.
    rewrite bool_decide_eq_false_2 by lia. by rewrite bool_decide_eq_true_2 by lia.
  - rewrite !list_lookup_imap.
    destruct (lookup_lt_is_Some_2 a i) as [x Hx]; [lia|]. rewrite Hx. simpl.
    by rewrite bool_decide_eq_true_2 by lia.
Qed.

Lemma set_porosity_valid d p :
  wf d -> (1 # 10 < p)%Q -> (p < 9 # 10)%Q ->
  exists P d', set_porosity p d = (Ok P, d') /\ porosity_is d' P p.
Proof.
  intros (m & Hm & Hnx & Hidx & HP) Hlo Hhi.
  assert (forall P0 d1, geometry d1 = geometry d ->
            length (cv_value P0) = numberOfCells m ->
            let P1 := var_setitem (Some (idx_surface (set_sediment_porosity p d1))) None p
                        (var_setitem None (Some (idx_surface (set_sediment_porosity p d1))) 1 P0) in
            porosity_is (set_VARS (<["porosity" := P1]> (VARS (set_sediment_porosity p d1)))
                           (set_sediment_porosity p d1)) P1 p) as Hfield.
  { intros P0 d1 Hg Hl P1. injection Hg as E1 E2 E3 E4 E5 E6 E7.
    unfold porosity_is. simpl. rewrite E3, E7.
    destruct (porosity_slices (cv_value P0) (idx_surface d) p) as (H1 & H2 & H3).
    { rewrite Hl. unfold numberOfCells. lia. }
    subst P1. simpl. rewrite E7. split_and!; try done.
    - apply lookup_insert_eq.
    - rewrite H1, Hl. unfold numberOfCells. by rewrite Hnx.
    - intros i Hi. apply H3. rewrite Hl. unfold numberOfCells. by rewrite Hnx. }
  unfold set_porosity.
  apply Qltb_lt in Hlo, Hhi. rewrite Hlo, Hhi. simpl.
  destruct (VARS d !! "porosity") as [P0|] eqn:EP.
  - eexists _, _. split; [done|]. apply Hfield; [done|by apply HP].
  - destruct (create_var _ _ d) as [[P0|e] d1] eqn:EC.
    + eexists _, _. split; [done|].
      pose proof (create_var_frame _ _ _ _ _ EC) as [Hg _].
      apply create_var_ok in EC as (m' & Hm' & _ & _ & Hl & _).
      apply Hfield; [done|congruence].
    + exfalso. revert EC. unfold create_var. rewrite Hm, EP. simpl. done.
Qed.




(** ** More on the construction *)

(** What [create_var] and [set_porosity] leave alone besides the
    geometry. *)
Definition layout (d : SedimentDBLDomain) : float * float * list float :=
  (sediment_interface d, domain_length d, depths_um d).

Lemma create_var_layout name kwargs d r d' :
  create_var name kwargs d = (r, d') -> layout d' = layout d.
Proof.
  unfold create_var. intros H.
  repeat (case_match; simplify_eq); done.
Qed.

Lemma set_porosity_layout p d r d' :
  set_porosity p d = (r, d') -> layout d' = layout d.
Proof.
  unfold set_porosity. intros H.
  destruct (negb _); [by simplify_eq|].
  destruct (VARS d !! "porosity") as [P|] eqn:EP; [by simplify_eq|].
  destruct (create_var _ _ d) as [[P|e] d1] eqn:EC; simplify_eq;
    by apply create_var_layout in EC.
Qed.

Lemma create_var_raise name kwargs d e d' :
  create_var name kwargs d = (Raise e, d') -> d' = d.
Proof.
  unfold create_var. intros H.
  repeat (case_match; simplify_eq); done.
Qed.

Lemma mesh_x_length m : length (mesh_x m) = numberOfCells m.
Proof. unfold mesh_x. by rewrite length_fmap, length_seq. Qed.

Lemma py_index_in {A} (a : list A) i :
  0 <= i -> py_index a i = a !! Z.to_nat i.
Proof. intros Hi. unfold py_index. destruct (Z.ltb_spec i 0); [lia|done]. Qed.

Lemma set_porosity_ok_range p d P d' :
  set_porosity p d = (Ok P, d') -> (1 # 10 < p)%Q /\ (p < 9 # 10)%Q.
Proof.
  unfold set_porosity.
  destruct (Qltb (1 # 10) p) eqn:E1; [|done].
  destruct (Qltb p (9 # 10)) eqn:E2; [|done].
  intros _. split; by apply Qltb_lt.
Qed.

(** The state of the object when [create_mesh] is called, for the numbers
    of cells [ns] and [nl]. *)
Definition before_mesh (c : float) (ns nl : Z) : SedimentDBLDomain :=
  {| VARS := ∅; mesh := None;
     sediment_Ncells := ns; DBL_Ncells := nl;
     domain_Ncells := ns + nl; cell_size := c;
     sediment_length := (float_of_Z ns * c)%float;
     DBL_length := (float_of_Z nl * c)%float;
     sediment_interface := (float_of_Z nl * c)%float;
     domain_length := (float_of_Z ns * c + float_of_Z nl * c)%float;
     idx_surface := nl; depths_um := []; sediment_porosity := None |}.

Lemma init_inv c s l p d :
  init c s l p = Ok d ->
  ((0 <? s)%float = true /\ (0 <=? l)%float = true /\ (10 <=? s / c)%float = true /\
   (1 # 10 < p)%Q /\ (p < 9 # 10)%Q) /\
  exists ns nl d1 P,
    int (s / c) = Ok ns /\ int (l / c) = Ok nl /\ 10 <= ns /\ 0 <= nl /\
    create_mesh (before_mesh c ns nl) = (Ok (), d1) /\
    set_porosity p d1 = (Ok P, d).
Proof.
  unfold init.
  destruct (negb (0 <? s)%float) eqn:Hs; [done|].
  destruct (negb (0 <=? l)%float) eqn:Hl; [done|].
  destruct (negb (10 <=? s / c)%float) eqn:H10; [done|].
  apply negb_false_iff in Hs, Hl, H10.
  destruct (int (s / c)) as [ns|] eqn:Ens; [|done].
  destruct (int (l / c)) as [nl|] eqn:Enl; [|done].
  cbn [mbind result_bind].
  pose proof (int_ge_10 _ _ H10 Ens) as Hns.
  pose proof (int_quotient_nonneg _ _ _ _ Hs Hl H10 Enl) as Hnl.
  fold (before_mesh c ns nl).
  destruct (create_mesh _) as [[[]|e] d1] eqn:EM; [|done].
  destruct (set_porosity p d1) as [[P|e] d2] eqn:EP; [|done].
  intros [= <-]. pose proof (set_porosity_ok_range _ _ _ _ EP) as [? ?].
  split; [done|]. by exists ns, nl, d1, P.
Qed.

Lemma create_mesh_before c ns nl :
  10 <= ns -> 0 <= nl ->
  exists d1, create_mesh (before_mesh c ns nl) = (Ok (), d1) /\
    mesh d1 = Some {| dx := (c * 0.001)%float; nx := ns + nl |} /\
    VARS d1 = ∅ /\ geometry d1 = geometry (before_mesh c ns nl).
Proof.
  intros Hns Hnl.
  unfold create_mesh. cbn [before_mesh cell_size domain_Ncells idx_surface].
  rewrite py_index_in by done.
  destruct (lookup_lt_is_Some_2
              (mesh_x {| dx := (c * 0.001)%float; nx := ns + nl |})
              (Z.to_nat nl)) as [z0 Hz0].
  { rewrite mesh_x_length. unfold numberOfCells. simpl. lia. }
  rewrite Hz0. eexists. split; [done|]. by split_and!.
Qed.



Lemma init_state c s l p d :
  init c s l p = Ok d ->
  exists ns nl,
    int (s / c) = Ok ns /\ int (l / c) = Ok nl /\
    geometry d = geometry (before_mesh c ns nl) /\
    layout d = layout (snd (create_mesh (before_mesh c ns nl))) /\
    mesh d = Some {| dx := (c * 0.001)%float; nx := ns + nl |} /\
    10 <= ns /\ 0 <= nl.
Proof.
  intros H. apply init_inv in H as (_ & ns & nl & d1 & P & Ens & Enl & Hns & Hnl & Hm & Hp).
  destruct (create_mesh_before c ns nl Hns Hnl) as (d1' & Hm' & Hmesh & HV & Hg).
  rewrite Hm in Hm'. injection Hm' as <-.
  pose proof (set_porosity_frame _ _ _ _ Hp) as [Hg' Hmesh'].
  pose proof (set_porosity_layout _ _ _ _ Hp) as Hl'.
  exists ns, nl. rewrite Hm. simpl. split_and!; try done; congruence.
Qed.

(** X5. A constructed domain has at least ten sediment cells, a number of DBL
    cells that is not negative, their sum as its number of cells and as the
    size of its grid, the sum of the two lengths as its length, the DBL
    length as the position of the interface, a grid step of the cell size
    in metres, and the porosity it was given. *)
Theorem init_invariants (c s l : float) (p : Q) (d : SedimentDBLDomain) :
  init c s l p = Ok d ->
  10 <= sediment_Ncells d /\ 0 <= DBL_Ncells d /\
  domain_Ncells d = sediment_Ncells d + DBL_Ncells d /\
  mesh d = Some {| dx := (c * 0.001)%float; nx := domain_Ncells d |} /\
  domain_length d = (sediment_length d + DBL_length d)%float /\
  sediment_interface d = DBL_length d /\
  length (depths_um d) = Z.to_nat (domain_Ncells d) /\
  sediment_porosity d = Some p.
Proof.
  intros H.
  pose proof (init_state _ _ _ _ _ H) as (ns & nl & Ens & Enl & Hg & Hl & Hm & Hns & Hnl).
  injection Hg as E1 E2 E3 E4 E5 E6 E7.
  apply init_inv in H as (_ & ns' & nl' & d1 & P & Ens' & Enl' & _ & _ & Hm1 & Hp).
  rewrite Ens in Ens'. injection Ens' as <-. rewrite Enl in Enl'. injection Enl' as <-.
  rewrite Hm1 in Hl. simpl in Hl.
  assert (layout d1 = ((float_of_Z nl * c)%float,
                       (float_of_Z ns * c + float_of_Z nl * c)%float,
                       depths_um d1) /\
          length (depths_um d1) = Z.to_nat (ns + nl)) as [Hl1 Hlen].
  { revert Hm1. unfold create_mesh. cbn [before_mesh cell_size domain_Ncells idx_surface].
    destruct (py_index _ _); intros [= <-]. simpl. split; [done|].
    by rewrite length_fmap, mesh_x_length. }
  rewrite Hl1 in Hl. injection Hl as F1 F2 F3.
  rewrite E1, E2, E3, E5, E6, F1, F2, F3, Hm.
  split_and!; try done.
  revert Hp. unfold set_porosity. destruct (negb _); [done|].
  destruct (VARS d1 !! "porosity").
  - by intros [= _ <-].
  - destruct (create_var _ _ d1) as [[P0|e] d2]; [|done]. by intros [= _ <-].
Qed.

Lemma init_invariants_witness :
  exists d, init 0.1 10 1 (6 # 10) = Ok d /\
    10 <= sediment_Ncells d /\ domain_Ncells d = sediment_Ncells d + DBL_Ncells d.
Proof.
  exists default_domain.
  assert (init 0.1 10 1 (6 # 10) = Ok default_domain) as H by (vm_compute; reflexivity).
  split; [exact H|].
  destruct (init_invariants _ _ _ _ _ H) as (H1 & _ & H3 & _). by split.
Defined.

(** ** The registry and the two regions *)

(** Every registered variable has one value per cell, and the surface
    index splits the cells into the DBL and the sediment. *)
Definition cells_split (d : SedimentDBLDomain) : Prop :=
  0 <= DBL_Ncells d /\ 0 <= sediment_Ncells d /\
  idx_surface d = DBL_Ncells d /\
  domain_Ncells d = sediment_Ncells d + DBL_Ncells d /\
  exists m, mesh d = Some m /\ nx m = domain_Ncells d /\
    forall name v, VARS d !! name = Some v -> length (cv_value v) = numberOfCells m.

Lemma set_porosity_vars p d P d' :
  set_porosity p d = (Ok P, d') ->
  VARS d' !! "porosity" = Some P /\
  forall other, other <> "porosity" -> VARS d' !! other = VARS d !! other.
Proof.
  unfold set_porosity. destruct (negb _); [done|].
  destruct (VARS d !! "porosity") as [P0|] eqn:EP.
  - intros [= <- <-]. simpl. split; [apply lookup_insert_eq|].
    intros other Ho. by apply lookup_insert_ne.
  - destruct (create_var _ _ d) as [[P0|e] d1] eqn:EC; [|done].
    intros [= <- <-]. simpl. split; [apply lookup_insert_eq|].
    intros other Ho. rewrite lookup_insert_ne by done.
    apply create_var_ok in EC as (m & _ & _ & _ & _ & _ & HV).
    rewrite HV. by apply lookup_insert_ne.
Qed.

Lemma set_porosity_raise p d e d' :
  set_porosity p d = (Raise e, d') -> d' = d.
Proof.
  unfold set_porosity. destruct (negb _); [by intros [= _ <-]|].
  destruct (VARS d !! "porosity") as [P0|] eqn:EP; [done|].
  destruct (create_var _ _ d) as [[P0|e0] d1] eqn:EC; [done|].
  intros [= _ <-]. by apply create_var_raise in EC.
Qed.

Lemma reachable_cells_split d : reachable d -> cells_split d.
Proof.
  induction 1 as [c s l p d Hi | d name kwargs r d' _ IH Hc | d p r d' _ IH Hp
                 | d name v v' _ IH Hv Hlen].
  - pose proof (init_state _ _ _ _ _ Hi) as (ns & nl & Ens & Enl & Hg & _ & Hm & Hns & Hnl).
    injection Hg as E1 E2 E3 E4 E5 E6 E7.
    apply init_inv in Hi as (_ & ns' & nl' & d1 & P & Ens' & Enl' & _ & _ & Hm1 & Hp).
    rewrite Ens in Ens'. injection Ens' as <-. rewrite Enl in Enl'. injection Enl' as <-.
    destruct (create_mesh_before c ns nl Hns Hnl) as (d1' & Hm' & Hmesh1 & HV & _).
    rewrite Hm1 in Hm'. injection Hm' as <-.
    unfold cells_split. rewrite E1, E2, E3, E7. split_and!; try done; try lia.
    eexists. split; [exact Hm|]. split; [done|].
    intros name v Hv. destruct (decide (name = "porosity")) as [->|Hne].
    + eapply (set_porosity_porosity_len p d1); [exact Hmesh1| |exact Hp|exact Hv].
      intros P0. by rewrite HV, lookup_empty.
    + apply set_porosity_vars in Hp as [_ Ho]. rewrite Ho, HV, lookup_empty in Hv; done.
  - destruct IH as (H1 & H2 & H3 & H4 & m & Hm & Hnx & Hall).
    pose proof (create_var_frame _ _ _ _ _ Hc) as [Hg Hm'].
    injection Hg as E1 E2 E3 E4 E5 E6 E7.
    unfold cells_split. rewrite E1, E2, E3, E7, Hm'. split_and!; try done.
    exists m. split_and!; try done.
    intros name' v Hv. destruct r as [var|e].
    + apply create_var_ok in Hc as (m' & Hm'' & _ & _ & Hl & _ & HV).
      rewrite Hm in Hm''. injection Hm'' as <-. rewrite HV in Hv.
      destruct (decide (name = name')) as [->|Hne].
      * rewrite lookup_insert_eq in Hv. by injection Hv as <-.
      * rewrite lookup_insert_ne in Hv by done. by eapply Hall.
    + apply create_var_raise in Hc as ->. by eapply Hall.
  - destruct IH as (H1 & H2 & H3 & H4 & m & Hm & Hnx & Hall).
    pose proof (set_porosity_frame _ _ _ _ Hp) as [Hg Hm'].
    injection Hg as E1 E2 E3 E4 E5 E6 E7.
    unfold cells_split. rewrite E1, E2, E3, E7, Hm'. split_and!; try done.
    exists m. split_and!; try done.
    intros name' v Hv. destruct r as [P|e].
    + destruct (decide (name' = "porosity")) as [->|Hne].
      * eapply (set_porosity_porosity_len p d); [exact Hm| |exact Hp|exact Hv].
        intros P0 HP0. by eapply Hall.
      * apply set_porosity_vars in Hp as [_ Ho]. rewrite Ho in Hv by done. by eapply Hall.
    + apply set_porosity_raise in Hp as ->. by eapply Hall.
  - destruct IH as (H1 & H2 & H3 & H4 & m & Hm & Hnx & Hall).
    unfold cells_split. simpl. split_and!; try done.
    exists m. split_and!; try done.
    intros name' v0 Hv0. destruct (decide (name = name')) as [->|Hne].
    + rewrite lookup_insert_eq in Hv0. injection Hv0 as <-. rewrite Hlen. by eapply Hall.
    + rewrite lookup_insert_ne in Hv0 by done. by eapply Hall.
Qed.

(** X8. On a reachable domain, [var_in_DBL] and [var_in_sediment] cut the values
    of a registered variable in two: the first has one value per DBL cell,
    the second one per sediment cell, and together they are the variable.
    For a name that is not registered both raise [KeyError]. *)
Theorem var_regions (d : SedimentDBLDomain) (vname : string) :
  reachable d ->
  (forall v, VARS d !! vname = Some v ->
     exists a b, var_in_DBL vname d = Ok a /\ var_in_sediment vname d = Ok b /\
       a ++ b = cv_value v /\
       length a = Z.to_nat (DBL_Ncells d) /\ length b = Z.to_nat (sediment_Ncells d)) /\
  (VARS d !! vname = None ->
     var_in_DBL vname d = Raise (KeyError vname) /\
     var_in_sediment vname d = Raise (KeyError vname)).
Proof.
  intros Hd. apply reachable_cells_split in Hd
    as (H1 & H2 & H3 & H4 & m & Hm & Hnx & Hall).
  split.
  - intros v Hv. unfold var_in_DBL, var_in_sediment, getitem. rewrite Hv. simpl.
    pose proof (Hall _ _ Hv) as Hlen. unfold numberOfCells in Hlen.
    rewrite slice_bound_in by (rewrite Hlen; lia).
    eexists _, _. split_and!; try done.
    + apply take_drop.
    + rewrite length_take, Hlen. lia.
    + rewrite length_drop, Hlen. lia.
  - intros Hv. unfold var_in_DBL, var_in_sediment, getitem. by rewrite Hv.
Qed.

Lemma var_regions_witness :
  exists P a b, VARS default_domain !! "porosity" = Some P /\
    var_in_DBL "porosity" default_domain = Ok a /\
    var_in_sediment "porosity" default_domain = Ok b /\
    a ++ b = cv_value P /\ length a = 10%nat /\ length b = 100%nat.
Proof.
  assert (reachable default_domain) as Hd.
  { apply (reach_init 0.1 10 1 (6 # 10)). vm_compute. reflexivity. }
  assert (exists P, VARS default_domain !! "porosity" = Some P) as [P HP]
    by (eexists; vm_compute; reflexivity).
  destruct (proj1 (var_regions default_domain "porosity" Hd) P HP)
    as (a & b & Ha & Hb & Hab & Hla & Hlb).
  assert (Z.to_nat (DBL_Ncells default_domain) = 10%nat) as E1 by (vm_compute; reflexivity).
  assert (Z.to_nat (sediment_Ncells default_domain) = 100%nat) as E2
    by (vm_compute; reflexivity).
  rewrite E1 in Hla. rewrite E2 in Hlb.
  exists P, a, b. exact (conj HP (conj Ha (conj Hb (conj Hab (conj Hla Hlb))))).
Defined.

(** X9. [create_var] registers nothing when it raises, whatever the reason; a
    new name with an array that has not one value per cell is refused for
    its shape, and a string, which has no number to repeat, as not
    numeric. *)
Theorem create_var_rejects (name : string) (kwargs : var_kwargs) (d : SedimentDBLDomain) :
  (forall e d', create_var name kwargs d = (Raise e, d') -> d' = d) /\
  (forall m, mesh d = Some m -> name <> EmptyString -> VARS d !! name = None ->
     (forall xs, kw_value kwargs = PyArr xs -> length xs <> numberOfCells m ->
        create_var name kwargs d =
          (Raise (ValueError "Value shape {} not compatible for mesh {}"), d)) /\
     (forall s, kw_value kwargs = PyStr s ->
        create_var name kwargs d =
          (Raise (ValueError "Value {} could not be cast numerically"), d))).
Proof.
  split; [intros e d'; apply create_var_raise|].
  intros m Hm Hn Hfresh. unfold create_var. rewrite Hm.
  rewrite bool_decide_eq_false_2 by done.
  rewrite bool_decide_eq_false_2 by (rewrite Hfresh; by intros [? ?]).
  split.
  - intros xs -> Hlen. simpl.
    rewrite (bool_decide_eq_false_2 ([length xs] = [numberOfCells m])); [done|].
    intros [= E]. done.
  - by intros s ->.
Qed.

Lemma create_var_rejects_witness :
  create_var "oxy" {| kw_value := PyArr [1; 2; 3]%Q; kw_unit := None; kw_hasOld := false |}
    default_domain =
  (Raise (ValueError "Value shape {} not compatible for mesh {}"), default_domain).
Proof.
  destruct (create_var_rejects "oxy"
              {| kw_value := PyArr [1; 2; 3]%Q; kw_unit := None; kw_hasOld := false |}
              default_domain) as [_ H].
  destruct (H {| dx := (0.1 * 0.001)%float; nx := 110 |}) as [Harr _].
  - vm_compute. reflexivity.
  - discriminate.
  - vm_compute. reflexivity.
  - apply (Harr [1; 2; 3]%Q); [reflexivity|]. vm_compute. lia.
Defined.

(** X10. [set_porosity] changes the entry of the porosity and nothing else of the
    registry, the grid or the geometry; when it raises, it changes
    nothing. *)
Theorem set_porosity_frame_vars (p : Q) (d : SedimentDBLDomain) r d' :
  set_porosity p d = (r, d') ->
  (forall other, other <> "porosity" -> VARS d' !! other = VARS d !! other) /\
  geometry d' = geometry d /\ mesh d' = mesh d /\ depths_um d' = depths_um d /\
  (is_ok r = false -> d' = d).
Proof.
  intros H. pose proof (set_porosity_frame _ _ _ _ H) as [Hg Hm].
  pose proof (set_porosity_layout _ _ _ _ H) as Hl. injection Hl as _ _ Hdep.
  destruct r as [P|e].
  - apply set_porosity_vars in H as [_ Ho]. by split_and!.
  - apply set_porosity_raise in H as ->. by split_and!.
Qed.

Lemma set_porosity_frame_vars_witness :
  exists d',
    (set_porosity (7 # 10) default_domain).2 = d' /\
    geometry d' = geometry default_domain /\ mesh d' = mesh default_domain.
Proof.
  destruct (set_porosity (7 # 10) default_domain) as [r d'] eqn:E.
  exists d'. split; [reflexivity|].
  destruct (set_porosity_frame_vars _ _ _ _ E) as (_ & Hg & Hm & _). by split.
Defined.




Lemma slice_assign_same {A} start stop (v : A) (a : list A) :
  (forall i, (from_option (slice_bound (length a)) 0%nat start <= i <
              from_option (slice_bound (length a)) (length a) stop)%nat ->
             i < length a -> a !! i = Some v)%nat ->
  slice_assign start stop v a = a.
Proof.
  intros H. apply list_eq. intros i. unfold slice_assign.
  rewrite list_lookup_imap.
  destruct (a !! i) as [x|] eqn:E; [|done]. simpl.
  case_bool_decide as Hi; [|done].
  symmetry. rewrite <- E. apply H; [done|]. by eapply lookup_lt_Some.
Qed.

Lemma set_porosity_again d P p :
  wf d -> (1 # 10 < p)%Q -> (p < 9 # 10)%Q -> porosity_is d P p ->
  set_porosity p d = (Ok P, d).
Proof.
  intros (m & Hm & Hnx & Hidx & _) Hlo Hhi (HP & Hsp & Hlen & Hdbl & Hsed).
  unfold set_porosity. apply Qltb_lt in Hlo, Hhi. rewrite Hlo, Hhi. simpl.
  rewrite HP.
  assert (slice_assign None (Some (idx_surface d)) 1%Q (cv_value P) = cv_value P) as E1.
  { apply slice_assign_same. simpl. intros i Hi _.
    rewrite slice_bound_in in Hi by (rewrite Hlen; lia). apply Hdbl. lia. }
  assert (slice_assign (Some (idx_surface d)) None p (cv_value P) = cv_value P) as E2.
  { apply slice_assign_same. simpl. intros i Hi Hi'.
    rewrite slice_bound_in in Hi by (rewrite Hlen; lia). apply Hsed. lia. }
  unfold var_setitem. cbn [cv_name cv_value cv_unit cv_old cv_constraints idx_surface
                           set_sediment_porosity].
  rewrite E1, E2. destruct P as [n v u o cs]. cbn [cv_name cv_value cv_unit cv_old cv_constraints].
  f_equal. destruct d. unfold set_VARS, set_sediment_porosity. simpl in *.
  rewrite insert_id by done. by rewrite Hsp.
Qed.

(** X12. A second call of [set_porosity] with the same value returns the same
    field and leaves the domain as the first call left it. *)
Theorem set_porosity_idempotent (d : SedimentDBLDomain) (p : Q) P d' :
  reachable d -> set_porosity p d = (Ok P, d') -> set_porosity p d' = (Ok P, d').
Proof.
  intros Hd H.
  pose proof (set_porosity_ok_range _ _ _ _ H) as [Hlo Hhi].
  destruct (set_porosity_valid d p (reachable_wf _ Hd) Hlo Hhi) as (P' & d'' & Hs & HP).
  rewrite H in Hs. injection Hs as <- <-.
  apply set_porosity_again; try done.
  apply reachable_wf. by eapply reach_set_porosity.
Qed.

Lemma set_porosity_idempotent_witness :
  exists P d', set_porosity (7 # 10) default_domain = (Ok P, d') /\
    set_porosity (7 # 10) d' = (Ok P, d').
Proof.
  assert (reachable default_domain) as Hd.
  { apply (reach_init 0.1 10 1 (6 # 10)). vm_compute. reflexivity. }
  destruct (set_porosity_valid default_domain (7 # 10) (reachable_wf _ Hd))
    as (P & d' & H & _); [reflexivity|reflexivity|].
  exists P, d'. split; [exact H|].
  exact (set_porosity_idempotent default_domain (7 # 10) P d' Hd H).
Defined.

End Domain.

(** * Variables: the class [Variable] of [core/entity.py] *)

Module Var.
Import Entity Domain.

(** ** Conversions of Python values *)

(** [iter(x)]: the items of an iterable, [None] for a value that is not
    iterable. *)
Definition iter_items (x : pyval) : option (list pyval) :=
  match x with
  | PyList xs | PyTuple xs => Some xs
  | PyStr s => Some ((fun c => PyStr (String c EmptyString)) <$> String.list_ascii_of_string s)
  | PyDict kvs => Some (fst <$> kvs)
  | PyArr xs => Some (PyNum <$> xs)
  | PyPhysArr xs u => Some ((fun q => PyPhys q u) <$> xs)
  | PyNone | PyNum _ | PyPhys _ _ => None
  end.

(** [d[k] = v] on the items of a dictionary. *)
Fixpoint dict_setitem (kvs : list (pyval * pyval)) (k v : pyval) : list (pyval * pyval) :=
  match kvs with
  | [] => [(k, v)]
  | (k', v') :: rest =>
      if py_eqb k' k then (k', v) :: rest else (k', v') :: dict_setitem rest k v
  end.

(** [dict(x)]: a copy of a dictionary, or the dictionary of a sequence of
    pairs. *)
Definition dict_update_element (acc : result (list (pyval * pyval))) (elem : pyval) :
    result (list (pyval * pyval)) :=
  kvs ← acc;
  match iter_items elem with
  | None => Raise (TypeError "cannot convert dictionary update sequence element #{} to a sequence")
  | Some [k; v] =>
      if hashable k then Ok (dict_setitem kvs k v) else Raise (TypeError "unhashable type")
  | Some _ => Raise (ValueError "dictionary update sequence element #{} has length {}; 2 is required")
  end.

Definition py_dict (x : pyval) : result (list (pyval * pyval)) :=
  match x with
  | PyDict kvs => Ok kvs
  | _ =>
      match iter_items x with
      | None => Raise (TypeError "object is not iterable")
      | Some elems => foldl dict_update_element (Ok []) elems
      end
  end.

(** The strings [float] accepts: a decimal literal, [inf], [infinity] or
    [nan], with an optional sign and surrounding white space. *)
Definition is_digit (c : ascii) : bool :=
  let n := nat_of_ascii c in (48 <=? n)%nat && (n <=? 57)%nat.

Definition is_space (c : ascii) : bool :=
  let n := nat_of_ascii c in bool_decide (n = 32%nat) || ((9 <=? n)%nat && (n <=? 13)%nat).

Definition lower (c : ascii) : ascii :=
  let n := nat_of_ascii c in
  if (65 <=? n)%nat && (n <=? 90)%nat then ascii_of_nat (n + 32) else c.

Fixpoint drop_while (f : ascii -> bool) (l : list ascii) : list ascii :=
  match l with
  | c :: rest => if f c then drop_while f rest else l
  | [] => []
  end.

Fixpoint count_while (f : ascii -> bool) (l : list ascii) : nat :=
  match l with
  | c :: rest => if f c then S (count_while f rest) else 0%nat
  | [] => 0%nat
  end.

Definition drop_sign (l : list ascii) : list ascii :=
  match l with
  | c :: rest => if bool_decide (c = "+"%char) || bool_decide (c = "-"%char) then rest else l
  | [] => []
  end.

Definition is_exponent (l : list ascii) : bool :=
  match l with
  | [] => true
  | c :: rest =>
      bool_decide (lower c = "e"%char) &&
      (let digits := drop_sign rest in
       (0 <? count_while is_digit digits)%nat &&
       bool_decide (drop_while is_digit digits = []))
  end.

Definition is_float_literal (s : string) : bool :=
  let l := drop_while is_space (String.list_ascii_of_string s) in
  let l := reverse (drop_while is_space (reverse l)) in
  let l := drop_sign l in
  let word := String.string_of_list_ascii (lower <$> l) in
  if bool_decide (word ∈ ["inf"; "infinity"; "nan"]) then true
  else
    let n1 := count_while is_digit l in
    let l1 := drop_while is_digit l in
    let '(n2, l2) :=
      match l1 with
      | c :: rest =>
          if bool_decide (c = "."%char)
          then (count_while is_digit rest, drop_while is_digit rest)
          else (0%nat, l1)
      | [] => (0%nat, l1)
      end in
    (0 <? n1 + n2)%nat && is_exponent l2.

(** Whether [float(val.value)], for a [PhysicalField], or [float(val)]
    returns: an array converts when it has one element. *)
Definition float_ok (val : pyval) : bool :=
  match val with
  | PyNum _ | PyPhys _ _ => true
  | PyStr s => is_float_literal s
  | PyArr xs | PyPhysArr xs _ => bool_decide (length xs = 1%nat)
  | PyNone | PyList _ | PyTuple _ | PyDict _ => false
  end.

(** ** [check_constraints] *)

Definition locs : list string := ["top"; "bottom"; "dbl"; "sediment"].

Definition in_locs (loc : pyval) : bool :=
  match loc with
  | PyStr s => bool_decide (s ∈ locs)
  | _ => false
  end.

Definition check_item (item : pyval * pyval) : result () :=
  let '(loc, val) := item in
  if negb (in_locs loc)
  then Raise (ValueError "Constraint loc={!r} unknown. Should be in {}")
  else if negb (float_ok val)
  then Raise (ValueError "Constraint should be single-valued, not {!r}")
  else Ok ().

Fixpoint check_items (items : list (pyval * pyval)) : result () :=
  match items with
  | [] => Ok ()
  | item :: rest => check_item item ≫= fun _ => check_items rest
  end.

Definition check_constraints (constraints : pyval) : result () :=
  match py_dict constraints with
  | Raise (ValueError _) | Raise (TypeError _) =>
      Raise (ValueError "Constraints should be mapping of (location, value) pairs!")
  | Raise e => Raise e
  | Ok items => check_items items
  end.

Definition is_mapping (x : pyval) : bool :=
  match x with PyDict _ => true | _ => false end.

(** The cases of [test_constraints_check] in [tests/test_entity.py]. *)
Example constraints_check_cases :
  check_constraints (PyList [PyTuple [PyStr "top"; PyNum 1]]) = Ok () /\
  check_constraints (PyList [PyTuple [PyStr "top"; PyNum 0]; PyTuple [PyStr "bottom"; PyNum 1]]) = Ok () /\
  is_ValueError (check_constraints (PyList [PyTuple [PyStr "atop"; PyNum 0]; PyTuple [PyStr "bottom"; PyNum 1]])) = true /\
  is_ValueError (check_constraints (PyList [PyTuple [PyStr "unknown"; PyNum 1]])) = true /\
  is_ValueError (check_constraints (PyTuple [PyStr "top"; PyNum 1])) = true /\
  is_ValueError (check_constraints PyNone) = true /\
  is_ValueError (check_constraints (PyStr "234")) = true /\
  is_ValueError (check_constraints (PyList [PyTuple [PyStr "top"; PyList [PyNum 3; PyNum 4]]])) = true /\
  is_ValueError (check_constraints (PyList [PyTuple [PyStr "top"; PyStr "abc"]])) = true /\
  check_constraints (PyList [PyTuple [PyStr "top"; PyStr "1.3"]]) = Ok () /\
  is_ValueError (check_constraints (PyList [PyTuple [PyStr "top"; PyList [PyStr "1.3"]]])) = true.
Proof. vm_compute. repeat split. Qed.

Lemma check_items_bad items :
  (exists item, item ∈ items /\ (in_locs item.1 = false \/ float_ok item.2 = false)) ->
  is_ValueError (check_items items) = true.
Proof.
  induction items as [|[loc val] rest IH]; intros (item & Hin & Hbad).
  - by apply elem_of_nil in Hin.
  - simpl. destruct (in_locs loc) eqn:Hloc; [|done].
    destruct (float_ok val) eqn:Hval; [|done]. simpl.
    apply IH. exists item. split; [|done].
    apply elem_of_cons in Hin as [->|Hin]; [|done].
    simpl in Hbad. destruct Hbad; congruence.
Qed.

Lemma check_items_good items :
  (forall item, item ∈ items -> in_locs item.1 = true /\ float_ok item.2 = true) ->
  check_items items = Ok ().
Proof.
  induction items as [|[loc val] rest IH]; intros Hall; [done|].
  destruct (Hall (loc, val)) as [H1 H2]; [by left|].
  simpl in *. rewrite H1, H2. simpl.
  apply IH. intros item Hin. apply Hall. by right.
Qed.

Lemma py_dict_raises x e :
  py_dict x = Raise e -> match e with ValueError _ | TypeError _ => True | _ => False end.
Proof.
  assert (forall elems acc,
            match acc with
            | Raise (ValueError _) | Raise (TypeError _) | Ok _ => True
            | _ => False
            end ->
            foldl dict_update_element acc elems = Raise e ->
            match e with ValueError _ | TypeError _ => True | _ => False end) as Hfold.
  { induction elems as [|elem elems IH]; intros acc Hacc; simpl.
    - intros ->. done.
    - apply IH. unfold dict_update_element.
      destruct acc as [kvs|e']; simpl; [|done].
      destruct (iter_items elem) as [[|k [|v [|? ?]]]|]; try done.
      by destruct (hashable k). }
  unfold py_dict. destruct x; simpl; try (by intros [= <-]); try (by apply Hfold).
Qed.

(** C6, as the code has it.  [check_constraints] raises [ValueError] for an
    argument that [dict] does not convert to a dictionary, such as [None],
    the string ['234'] or the flat tuple [('top', 1)]; for an argument that
    [dict] converts, a dictionary or a sequence of pairs alike, it raises
    [ValueError] when an item has a location outside top, bottom, dbl and
    sediment, and when an item has a value that [float] does not reduce to
    one scalar, such as the list [[3, 4]] or the string ['abc']; and it
    returns when every item has a known location and such a value. *)
Theorem check_constraints_spec (constraints : pyval) :
  (is_ok (py_dict constraints) = false ->
     check_constraints constraints =
       Raise (ValueError "Constraints should be mapping of (location, value) pairs!")) /\
  (forall items loc val, py_dict constraints = Ok items -> (loc, val) ∈ items ->
     in_locs loc = false -> is_ValueError (check_constraints constraints) = true) /\
  (forall items loc val, py_dict constraints = Ok items -> (loc, val) ∈ items ->
     float_ok val = false -> is_ValueError (check_constraints constraints) = true) /\
  (forall items, py_dict constraints = Ok items ->
     (forall item, item ∈ items -> in_locs item.1 = true /\ float_ok item.2 = true) ->
     check_constraints constraints = Ok ()) /\
  is_ok (py_dict PyNone) = false /\
  is_ok (py_dict (PyStr "234")) = false /\
  is_ok (py_dict (PyTuple [PyStr "top"; PyNum 1])) = false /\
  float_ok (PyList [PyNum 3; PyNum 4]) = false /\
  float_ok (PyStr "abc") = false.
Proof.
  refine (conj _ (conj _ (conj _ (conj _ _)))).
  - unfold check_constraints. destruct (py_dict constraints) as [items|e] eqn:E.
    + intros H. discriminate H.
    + intros _. apply py_dict_raises in E. destruct e; simpl in E; tauto.
  - intros items loc val Hd Hin Hloc. unfold check_constraints. rewrite Hd.
    apply check_items_bad. exists (loc, val). split; [exact Hin|by left].
  - intros items loc val Hd Hin Hval. unfold check_constraints. rewrite Hd.
    apply check_items_bad. exists (loc, val). split; [exact Hin|by right].
  - intros items Hd Hall. unfold check_constraints. rewrite Hd.
    by apply check_items_good.
  - repeat split; vm_compute; reflexivity.
Qed.

Lemma check_constraints_spec_witness :
  is_ValueError (check_constraints
    (PyDict [(PyStr "top", PyNum 1); (PyStr "atop", PyNum 0)])) = true /\
  is_ValueError (check_constraints
    (PyList [PyTuple [PyStr "top"; PyList [PyNum 3; PyNum 4]]])) = true /\
  check_constraints (PyNone) =
    Raise (ValueError "Constraints should be mapping of (location, value) pairs!").
Proof.
  split_and!.
  - destruct (check_constraints_spec
                (PyDict [(PyStr "top", PyNum 1); (PyStr "atop", PyNum 0)]))
      as (_ & H & _).
    apply (H _ (PyStr "atop") (PyNum 0) eq_refl); [|reflexivity].
    apply list_elem_of_lookup_2 with 1%nat. reflexivity.
  - destruct (check_constraints_spec
                (PyList [PyTuple [PyStr "top"; PyList [PyNum 3; PyNum 4]]]))
      as (_ & _ & H & _).
    apply (H _ (PyStr "top") (PyList [PyNum 3; PyNum 4]) eq_refl); [|reflexivity].
    apply list_elem_of_lookup_2 with 0%nat. reflexivity.
  - destruct (check_constraints_spec PyNone) as (H & _). apply H. reflexivity.
Defined.

(** A list of pairs is not a mapping, and [check_constraints] accepts it:
    the first case of [test_constraints_check]. *)
Lemma check_constraints_accepts_pairs :
  is_mapping (PyList [PyTuple [PyStr "top"; PyNum 1]]) = false /\
  check_constraints (PyList [PyTuple [PyStr "top"; PyNum 1]]) = Ok ().
Proof. split; reflexivity. Qed.

(** ** The entity and its world

    A [Variable] holds a reference to its domain, and, once created, a
    reference to the [CellVariable] the domain registered under its name: the
    object is shared with the registry, so it is read and updated there. *)

Record create_spec : Type := {
  cs_name : option pyval;
  cs_value : option pyval;
  cs_unit : option string;
  cs_hasOld : bool
}.

Record seed_spec : Type := {
  sp_profile : option string;
  sp_params : option (gmap string pyval)
}.

Inductive py_slice : Type := slice (start stop : option Z).

Record LOCs : Type := {
  top : mask;
  bottom : mask;
  dbl : py_slice;
  sediment : py_slice
}.

Record VariableEntity : Type := {
  base : DomainEntity;
  name : string;
  var : option string;
  create_params : create_spec;
  constraints : gmap string pyval;
  seed_params : option seed_spec;
  _LOCs : option LOCs
}.

(** What a run leaves behind, in order: the warnings and errors given to the
    logger, and the calls that reached the domain and the [CellVariable]. *)
Inductive event : Type :=
| Warning (msg : string) (args : list string)
| Error (msg : string)
| CreateVar (dom : domain_ref) (vname : string)
| SetValue (vname : string) (value : list Q)
| UpdateOld (vname : string)
| Constrain (vname : string) (loc : string) (value : Q) (where_ : mask).

Record world : Type := {
  self : VariableEntity;
  domains : gmap domain_ref SedimentDBLDomain;
  trace : list event
}.

Definition set_self (f : VariableEntity -> VariableEntity) : eff world () := fun w =>
  (Ok (), {| self := f (self w); domains := domains w; trace := trace w |}).

Definition emit (e : event) : eff world () := fun w =>
  (Ok (), {| self := self w; domains := domains w; trace := trace w ++ [e] |}).

(** [self.domain], followed to the object. *)
Definition the_domain : eff world (domain_ref * SedimentDBLDomain) := fun w =>
  match _domain (base (self w)) with
  | None => (Raise (AttributeError "NoneType object has no attribute"), w)
  | Some r =>
      match domains w !! r with
      | Some d => (Ok (r, d), w)
      | None => (Raise (RuntimeError "no object at the reference"), w)
      end
  end.

Definition put_domain (r : domain_ref) (d : SedimentDBLDomain) : eff world () := fun w =>
  (Ok (), {| self := self w; domains := <[r := d]> (domains w); trace := trace w |}).

(** [self.var], followed to the object in the registry of the domain. *)
Definition var_state (w : world) : option CellVariable :=
  key ← var (self w);
  r ← _domain (base (self w));
  d ← domains w !! r;
  VARS d !! key.

Definition the_var : eff world CellVariable := fun w =>
  match var_state w with
  | Some cv => (Ok cv, w)
  | None => (Raise (AttributeError "NoneType object has no attribute"), w)
  end.

Definition update_var (f : CellVariable -> CellVariable) : eff world () := fun w =>
  match var (self w), _domain (base (self w)) with
  | Some key, Some r =>
      match domains w !! r with
      | Some d =>
          match VARS d !! key with
          | Some cv =>
              (Ok (), {| self := self w;
                         domains := <[r := set_VARS (<[key := f cv]> (VARS d)) d]> (domains w);
                         trace := trace w |})
          | None => (Raise (RuntimeError "no object at the reference"), w)
          end
      | None => (Raise (RuntimeError "no object at the reference"), w)
      end
  | _, _ => (Raise (AttributeError "NoneType object has no attribute"), w)
  end.

(** [numerix.linspace(start, stop, N)] *)
Definition linspace (start stop : Q) (N : nat) : list Q :=
  match N with
  | 0%nat => []
  | 1%nat => [start]
  | _ => (fun i : nat =>
            (start + inject_Z (Z.of_nat i) * ((stop - start) / inject_Z (Z.of_nat (N - 1))))%Q)
         <$> seq 0 N
  end.

Definition PROFILES : list string := ["linear"; "normal"].
Definition invalid_pairs : list (string * string) := [("top", "dbl"); ("bottom", "sediment")].

Section WithFipy.
(** [value.inUnitsOf(unit).value] for a [PhysicalField]; it raises
    [TypeError] for incompatible units. *)
Variable inUnitsOf : pyval -> option string -> result Q.
(** [PhysicalField(value, unit)] for a value that is not one. *)
Variable PhysicalField : pyval -> option string -> result Q.
(** Whether [PhysicalField(1, unit)] returns. *)
Variable valid_unit : string -> bool.
(** The profile [normal] of [seed], from [loc], [scale] and [coeff]: it
    reads [self.domain.depths] and the density of [scipy.stats.norm]. *)
Variable normal_profile :
  SedimentDBLDomain -> CellVariable -> pyval -> pyval -> pyval -> result (list Q).

Definition check_create (params : create_spec) : result () :=
  truthy ← match cs_name params with Some n => py_bool n | None => Ok false end;
  if truthy : bool
  then Raise (ValueError "Create params should not contain name. Will be set from init name.")
  else
    match cs_unit params with
    | Some unit =>
        if bool_decide (unit = EmptyString) then Ok ()
        else if valid_unit unit then Ok ()
        else Raise (ValueError "{!r} is not a valid unit!")
    | None => Ok ()
    end.

(** [Variable(name, create, constraints, seed)] *)
Definition init (name : string) (create : create_spec) (constraints : gmap string pyval)
    (seed : option seed_spec) : result VariableEntity :=
  check_create create ;;
  check_constraints (PyDict (prod_map PyStr id <$> map_to_list constraints)) ;;
  Ok {| base := {| _domain := None; warnings := [] |};
        name := name; var := None; create_params := create;
        constraints := constraints; seed_params := seed; _LOCs := None |}.

Definition check_domain : eff world bool := fun w =>
  ((Core.check_domain (base (self w))).1, w).

Definition create (params : create_spec) : eff world CellVariable :=
  match cs_name params, cs_value params with
  | Some _, _ => raise (TypeError "create_var() got multiple values for keyword argument name")
  | None, None => raise (TypeError "create() takes at least 2 arguments")
  | None, Some value =>
      '(r, d) ← the_domain;
      w ← get;
      let '(res, d') :=
        create_var (name (self w))
          {| kw_value := value; kw_unit := cs_unit params; kw_hasOld := cs_hasOld params |} d in
      put_domain r d' ;;
      cv ← lift res;
      set_self (fun s =>
        {| base := base s; name := name s; var := Some (name s);
           create_params := create_params s; constraints := constraints s;
           seed_params := seed_params s; _LOCs := _LOCs s |}) ;;
      emit (CreateVar r (name (self w))) ;;
      mret cv
  end.

Definition kwarg (kwargs : gmap string pyval) (key : string) : eff world pyval :=
  match kwargs !! key with
  | Some v => mret v
  | None => raise (KeyError key)
  end.

(** [self.var.value = val] *)
Definition set_value (val : list Q) : eff world () :=
  w ← get;
  update_var (fun cv =>
    {| cv_name := cv_name cv; cv_value := val; cv_unit := cv_unit cv;
       cv_old := cv_old cv; cv_constraints := cv_constraints cv |}) ;;
  emit (SetValue (name (self w)) val).

(** [self.var.updateOld()] *)
Definition updateOld : eff world () :=
  w ← get;
  update_var (fun cv =>
    {| cv_name := cv_name cv; cv_value := cv_value cv; cv_unit := cv_unit cv;
       cv_old := match cv_old cv with Some _ => Some (cv_value cv) | None => None end;
       cv_constraints := cv_constraints cv |}) ;;
  emit (UpdateOld (name (self w))).

(** [start] and [stop] of the linear profile, in the unit of the
    variable. *)
Definition in_var_unit (x : pyval) (cv : CellVariable) : result Q :=
  match x with
  | PyPhys _ _ | PyPhysArr _ _ => inUnitsOf x (cv_unit cv)
  | PyNum q => Ok q
  | _ => Raise (TypeError "unsupported operand type")
  end.

Definition seed (profile : string) (kwargs : gmap string pyval) : eff world () :=
  if negb (bool_decide (profile ∈ PROFILES))
  then raise (ValueError "Unknown profile {!r} not in {}")
  else if bool_decide (profile = "normal")
  then
    loc ← kwarg kwargs "loc";
    scale ← kwarg kwargs "scale";
    coeff ← kwarg kwargs "coeff";
    '(r, d) ← the_domain;
    cv ← the_var;
    val ← lift (normal_profile d cv loc scale coeff);
    set_value val
  else
    start ← kwarg kwargs "start";
    stop ← kwarg kwargs "stop";
    cv ← the_var;
    let N := length (cv_value cv) in
    start_ ← lift (in_var_unit start cv);
    stop_ ← lift (in_var_unit stop cv);
    set_value (linspace start_ stop_ N).

Definition mask_of_slice (s : py_slice) (N : nat) : mask :=
  let '(slice start stop) := s in
  cells (slice_assign start stop true (replicate N false)).

Definition constrain (loc : string) (value : pyval) : eff world () :=
  w ← get;
  match var (self w) with
  | None => raise (RuntimeError "Variable {} does not exist!")
  | Some key =>
      cv ← the_var;
      L ← match _LOCs (self w) with
          | Some L => mret L
          | None => raise (AttributeError "Variable object has no attribute _LOCs")
          end;
      where_ ←
        (if bool_decide (loc = "top") then mret (top L)
         else if bool_decide (loc = "bottom") then mret (bottom L)
         else if bool_decide (loc = "dbl")
         then mret (mask_of_slice (dbl L) (length (cv_value cv)))
         else if bool_decide (loc = "sediment")
         then mret (mask_of_slice (sediment L) (length (cv_value cv)))
         else raise (ValueError "loc={} not in {}"));
      value ← lift
        match value with
        | PyPhys _ _ | PyPhysArr _ _ => inUnitsOf value (cv_unit cv)
        | _ => PhysicalField value (cv_unit cv)
        end;
      update_var (fun cv =>
        {| cv_name := cv_name cv; cv_value := cv_value cv; cv_unit := cv_unit cv;
           cv_old := cv_old cv; cv_constraints := cv_constraints cv ++ [(value, where_)] |}) ;;
      emit (Constrain key loc value where_)
  end.

Definition warn_invalid_pair (pair : string * string) : eff world () :=
  w ← get;
  if bool_decide (is_Some (constraints (self w) !! pair.1)) &&
     bool_decide (is_Some (constraints (self w) !! pair.2))
  then emit (Warning "Constraints specified with invalid pair: {}" [pair.1; pair.2])
  else mret ().

Definition setup : eff world () :=
  check_domain ;;
  w ← get;
  create (create_params (self w)) ;;
  match seed_params (self w) with
  | Some sp =>
      profile ← match sp_profile sp with Some p => mret p | None => raise (KeyError "profile") end;
      params ← match sp_params sp with Some p => mret p | None => raise (KeyError "params") end;
      seed profile params ;;
      if cs_hasOld (create_params (self w)) then updateOld else mret ()
  | None => mret ()
  end ;;
  '(r, d) ← the_domain;
  set_self (fun s =>
    {| base := base s; name := name s; var := var s;
       create_params := create_params s; constraints := constraints s;
       seed_params := seed_params s;
       _LOCs := Some {| top := facesLeft; bottom := facesRight;
                        dbl := slice (Some 0) (Some (idx_surface d));
                        sediment := slice (Some (idx_surface d)) None |} |}) ;;
  for_each warn_invalid_pair invalid_pairs ;;
  for_each (fun item : string * pyval => constrain item.1 item.2)
    (map_to_list (constraints (self w))).

(** *** The effect of each step on the entity, the trace and the variable *)


Definition with_constraint (c : Q * mask) (cv : CellVariable) : CellVariable :=
  {| cv_name := cv_name cv; cv_value := cv_value cv; cv_unit := cv_unit cv;
     cv_old := cv_old cv; cv_constraints := cv_constraints cv ++ [c] |}.



Lemma update_var_ok f w w' :
  update_var f w = (Ok (), w') ->
  self w' = self w /\ trace w' = trace w /\
  exists cv, var_state w = Some cv /\ var_state w' = Some (f cv).
Proof.
  unfold update_var, var_state.
  destruct (var (self w)) as [key|] eqn:Hk; [|done].
  destruct (_domain (base (self w))) as [r|] eqn:Hr; [|done].
  destruct (domains w !! r) as [d|] eqn:Hd; [|done].
  destruct (VARS d !! key) as [cv|] eqn:Hcv; [|done].
  intros [= <-]. simpl. rewrite Hk, Hr. simpl.
  rewrite lookup_insert_eq. simpl. rewrite lookup_insert_eq.
  split; [done|]. split; [done|]. exists cv. by rewrite Hd.
Qed.





Lemma create_var_new vname kwargs d cv d' :
  create_var vname kwargs d = (Ok cv, d') ->
  cv_constraints cv = [] /\
  cv_old cv = (if kw_hasOld kwargs then Some (cv_value cv) else None).
Proof.
  unfold create_var. destruct (mesh d); [|done].
  case_bool_decide; [done|]. case_bool_decide; [done|].
  case_match; [done|].
  destruct (broadcast _ _) as [[arr vu]|]; [|done].
  by intros [= <- <-].
Qed.

(** The attributes [setup] never assigns. *)
Definition same_config (s s' : VariableEntity) : Prop :=
  base s' = base s /\ name s' = name s /\ create_params s' = create_params s /\
  constraints s' = constraints s /\ seed_params s' = seed_params s.

Lemma create_ok params w cv w' :
  create params w = (Ok cv, w') ->
  exists r,
    _domain (base (self w)) = Some r /\
    same_config (self w) (self w') /\
    var (self w') = Some (name (self w)) /\
    trace w' = trace w ++ [CreateVar r (name (self w))] /\
    var_state w' = Some cv /\
    cv_constraints cv = [] /\
    cv_old cv = (if cs_hasOld params then Some (cv_value cv) else None).
Proof.
  unfold create. destruct (cs_name params); [done|].
  destruct (cs_value params) as [value|]; [|done]. intros H.
  apply bind_ok in H as ([r d] & w1 & H1 & H).
  assert (w1 = w /\ _domain (base (self w)) = Some r /\ domains w !! r = Some d)
    as (-> & Hr & Hd).
  { revert H1. unfold the_domain. repeat case_match; try done. by intros [= <- <- <-]. }
  apply bind_ok in H as (w0 & w1 & [= <- <-] & H).
  destruct (create_var _ _ d) as [res d'] eqn:Hc.
  apply bind_ok in H as ([] & w1 & [= <-] & H).
  apply bind_ok in H as (cv' & w1 & H2 & H).
  unfold lift in H2. injection H2 as -> <-.
  apply bind_ok in H as ([] & w1 & [= <-] & H).
  apply bind_ok in H as ([] & w1 & [= <-] & H).
  injection H as <- <-.
  pose proof (create_var_new _ _ _ _ _ Hc) as [Hcs Hold].
  apply create_var_ok in Hc as (m & _ & _ & _ & _ & _ & HV).
  exists r. split_and!; try done.
  unfold var_state. simpl. rewrite Hr. simpl. rewrite lookup_insert_eq. simpl.
  rewrite HV. apply lookup_insert_eq.
Qed.

(** [value] as [constrain] converts it: a [PhysicalField] to the unit of
    the variable, another value to a [PhysicalField] of that unit. *)
Definition constraint_value (value : pyval) (unit : option string) : result Q :=
  match value with
  | PyPhys _ _ | PyPhysArr _ _ => inUnitsOf value unit
  | _ => PhysicalField value unit
  end.

(** The mask [constrain] takes for a location, from the locations [L], on
    [N] cells. *)
Definition loc_mask (L : LOCs) (N : nat) (loc : string) : option mask :=
  if bool_decide (loc = "top") then Some (top L)
  else if bool_decide (loc = "bottom") then Some (bottom L)
  else if bool_decide (loc = "dbl") then Some (mask_of_slice (dbl L) N)
  else if bool_decide (loc = "sediment") then Some (mask_of_slice (sediment L) N)
  else None.

Lemma constrain_ok loc value w w' :
  constrain loc value w = (Ok (), w') ->
  exists key q m cv L,
    var (self w) = Some key /\ _LOCs (self w) = Some L /\ self w' = self w /\
    trace w' = trace w ++ [Constrain key loc q m] /\
    var_state w = Some cv /\ var_state w' = Some (with_constraint (q, m) cv) /\
    constraint_value value (cv_unit cv) = Ok q /\
    loc_mask L (length (cv_value cv)) loc = Some m.
Proof.
  unfold constrain. intros H.
  apply bind_ok in H as (w0 & w1 & [= <- <-] & H).
  destruct (var (self w)) as [key|] eqn:Hk; [|done].
  apply bind_ok in H as (cv & w1 & H1 & H).
  assert (w1 = w /\ var_state w = Some cv) as [-> Hcv].
  { revert H1. unfold the_var. destruct (var_state w); [|done]. by intros [= <- <-]. }
  apply bind_ok in H as (L & w1 & H2 & H).
  assert (w1 = w /\ _LOCs (self w) = Some L) as [-> HL].
  { revert H2. destruct (_LOCs (self w)); [|done]. by intros [= <- <-]. }
  apply bind_ok in H as (m & w1 & H3 & H).
  assert (w1 = w /\ loc_mask L (length (cv_value cv)) loc = Some m) as [-> Hm].
  { revert H3. unfold loc_mask. repeat case_bool_decide; try done; by intros [= <- <-]. }
  apply bind_ok in H as (q & w1 & H4 & H).
  assert (w1 = w /\ constraint_value value (cv_unit cv) = Ok q) as [-> Hq].
  { revert H4. unfold lift, constraint_value. by intros [= -> <-]. }
  apply bind_ok in H as ([] & w1 & H5 & [= <-]).
  apply update_var_ok in H5 as (Hs & Ht & cv' & Hv & Hv').
  rewrite Hcv in Hv. injection Hv as <-.
  exists key, q, m, cv, L. simpl. by rewrite Ht.
Qed.



End WithFipy.

(** A unit system without conversions, to run [setup]: a quantity converts
    to its own unit only, and a plain number takes the unit asked for.  The
    profile [normal] needs [self.domain.depths], which the domain of
    [domain.py] does not have. *)
Definition same_unit (value : pyval) (unit : option string) : result Q :=
  match value with
  | PyPhys q u =>
      if bool_decide (unit = Some u) then Ok q
      else Raise (TypeError "Incompatible units")
  | _ => Raise (TypeError "Incompatible units")
  end.

Definition plain_number (value : pyval) (unit : option string) : result Q :=
  match value with
  | PyNum q => Ok q
  | _ => Raise (TypeError "Illegal value")
  end.

Definition no_depths (d : SedimentDBLDomain) (cv : CellVariable) (loc scale coeff : pyval) :
    result (list Q) :=
  Raise (AttributeError "SedimentDBLDomain object has no attribute depths").

(** The variable of [test_constrain], seeded, on the default domain. *)
Definition oxy_world : world :=
  {| self :=
       {| base := {| _domain := Some 0%nat; warnings := [] |};
          name := "oxy"; var := None;
          create_params := {| cs_name := None; cs_value := Some (PyNum (33 # 10));
                              cs_unit := Some "mol/l"; cs_hasOld := true |};
          constraints := {[ "top" := PyPhys (2 # 10000) "mol/l"; "dbl" := PyNum 0 ]};
          seed_params := Some {| sp_profile := Some "linear";
                                 sp_params := Some {[ "start" := PyNum 0; "stop" := PyNum 10 ]} |};
          _LOCs := None |};
     domains := {[ 0%nat := default_domain ]};
     trace := [] |}.


(** ** More on variables *)

Lemma bind_raise {S A B} (m : eff S A) (f : A -> eff S B) s e s' :
  (m ≫= f) s = (Raise e, s') ->
  m s = (Raise e, s') \/ exists a s1, m s = (Ok a, s1) /\ f a s1 = (Raise e, s').
Proof.
  unfold mbind, eff_bind. destruct (m s) as [[a|e0] s1]; [eauto|].
  intros [= <- <-]. by left.
Qed.

Lemma check_items_ok items :
  check_items items = Ok () ->
  forall item, item ∈ items -> in_locs item.1 = true /\ float_ok item.2 = true.
Proof.
  intros H item Hin.
  destruct (in_locs item.1) eqn:E1; [destruct (float_ok item.2) eqn:E2; [done|]|].
  - assert (is_ValueError (check_items items) = true) as Hbad
      by (apply check_items_bad; exists item; by eauto).
    by rewrite H in Hbad.
  - assert (is_ValueError (check_items items) = true) as Hbad
      by (apply check_items_bad; exists item; by eauto).
    by rewrite H in Hbad.
Qed.

(** X13. A [Variable] that was constructed has no domain and no array yet, no
    truthy [name] among its creation parameters, and constraints whose
    locations are top, bottom, dbl or sediment and whose values reduce to
    one number. *)
Theorem init_valid (valid_unit : string -> bool) (vname : string) (create : create_spec)
    (cons : gmap string pyval) (seed : option seed_spec) (v : VariableEntity) :
  Var.init valid_unit vname create cons seed = Ok v ->
  _domain (base v) = None /\ var v = None /\ name v = vname /\
  constraints v = cons /\ create_params v = create /\
  (forall n, cs_name create = Some n -> py_bool n = Ok false) /\
  (forall loc val, cons !! loc = Some val -> loc ∈ locs /\ float_ok val = true).
Proof.
  unfold Var.init. destruct (check_create valid_unit create) as [[]|] eqn:Hc; [|done].
  simpl. destruct (check_constraints _) as [[]|] eqn:Hk; [|done]. simpl.
  intros [= <-]. simpl. split_and!; try done.
  - intros n Hn. revert Hc. unfold check_create. rewrite Hn.
    destruct (py_bool n) as [[|]|]; simpl; done.
  - intros loc val Hl. unfold check_constraints in Hk. simpl in Hk.
    pose proof (check_items_ok _ Hk (PyStr loc, val)) as [H1 H2].
    { apply list_elem_of_fmap. exists (loc, val). split; [done|].
      by apply elem_of_map_to_list. }
    simpl in *. split; [|done]. by apply bool_decide_eq_true in H1.
Qed.

Lemma init_valid_witness :
  exists v, Var.init (fun _ => true) "oxy"
              {| cs_name := None; cs_value := Some (PyNum 3); cs_unit := Some "mol/l";
                 cs_hasOld := false |}
              {[ "top" := PyNum 1 ]} None = Ok v /\
    _domain (base v) = None /\ var v = None.
Proof.
  eexists. split; [vm_compute; reflexivity|].
  match goal with |- _domain (base ?v) = _ /\ _ =>
    destruct (init_valid (fun _ => true) "oxy"
                {| cs_name := None; cs_value := Some (PyNum 3); cs_unit := Some "mol/l";
                   cs_hasOld := false |}
                {[ "top" := PyNum 1 ]} None v) as (H1 & H2 & _)
  end; [vm_compute; reflexivity|].
  exact (conj H1 H2).
Defined.

(** The masks of the slices [0:idx] and [idx:] on [N] cells: the first
    holds exactly on the cells before [idx], the second exactly on the
    others. *)
Lemma mask_of_slice_regions (N : nat) (idx : Z) :
  0 <= idx <= Z.of_nat N ->
  exists m1 m2,
    mask_of_slice (slice (Some 0) (Some idx)) N = cells m1 /\
    mask_of_slice (slice (Some idx) None) N = cells m2 /\
    length m1 = N /\ length m2 = N /\
    forall i, (i < N)%nat ->
      m1 !! i = Some (bool_decide (i < Z.to_nat idx)%nat) /\
      m2 !! i = Some (negb (bool_decide (i < Z.to_nat idx)%nat)).
Proof.
  intros Hidx. eexists _, _. split; [done|]. split; [done|].
  rewrite !slice_assign_length, length_replicate. split; [done|]. split; [done|].
  intros i Hi. unfold slice_assign. rewrite !list_lookup_imap, length_replicate.
  rewrite lookup_replicate_2 by done. simpl.
  rewrite !slice_bound_in by lia.
  split; f_equal; repeat case_bool_decide; try done; lia.
Qed.



Section MoreWithFipy.
Variable inUnitsOf : pyval -> option string -> result Q.
Variable PhysicalField : pyval -> option string -> result Q.
Variable normal_profile :
  SedimentDBLDomain -> CellVariable -> pyval -> pyval -> pyval -> result (list Q).

(** *** What a failing step leaves behind *)

Lemma update_var_raise f w e w' : update_var f w = (Raise e, w') -> w' = w.
Proof. unfold update_var. repeat case_match; by intros [= _ <-]. Qed.

Lemma set_value_raise val w e w' : set_value val w = (Raise e, w') -> w' = w.
Proof.
  unfold set_value. intros H.
  apply bind_raise in H as [[=]|(w0 & w1 & [= <- <-] & H)].
  apply bind_raise in H as [H|([] & w1 & _ & [=])].
  by apply update_var_raise in H.
Qed.

Lemma kwarg_state kwargs key w r w' : kwarg kwargs key w = (r, w') -> w' = w.
Proof. unfold kwarg. destruct (kwargs !! key); by intros [= _ <-]. Qed.

Lemma the_var_state w r w' : the_var w = (r, w') -> w' = w.
Proof. unfold the_var. destruct (var_state w); by intros [= _ <-]. Qed.

Lemma the_domain_state w r w' : the_domain w = (r, w') -> w' = w.
Proof. unfold the_domain. repeat case_match; by intros [= _ <-]. Qed.

Lemma lift_state {A} (x : result A) (w : world) r w' : lift x w = (r, w') -> w' = w.
Proof. by intros [= _ <-]. Qed.

Ltac pure_step H :=
  first [ apply kwarg_state in H | apply the_var_state in H
        | apply the_domain_state in H | apply lift_state in H ]; subst.

Lemma seed_raise profile kwargs w e w' :
  seed inUnitsOf normal_profile profile kwargs w = (Raise e, w') -> w' = w.
Proof.
  unfold seed. destruct (negb _); [by intros [= _ <-]|].
  destruct (bool_decide (profile = "normal")); intros H.
  - apply bind_raise in H as [H|(loc & w1 & H1 & H)]; [by pure_step H|pure_step H1].
    apply bind_raise in H as [H|(scale & w1 & H1 & H)]; [by pure_step H|pure_step H1].
    apply bind_raise in H as [H|(coeff & w1 & H1 & H)]; [by pure_step H|pure_step H1].
    apply bind_raise in H as [H|([r d] & w1 & H1 & H)]; [by pure_step H|pure_step H1].
    apply bind_raise in H as [H|(cv & w1 & H1 & H)]; [by pure_step H|pure_step H1].
    apply bind_raise in H as [H|(val & w1 & H1 & H)]; [by pure_step H|pure_step H1].
    by apply set_value_raise in H.
  - apply bind_raise in H as [H|(start & w1 & H1 & H)]; [by pure_step H|pure_step H1].
    apply bind_raise in H as [H|(stop & w1 & H1 & H)]; [by pure_step H|pure_step H1].
    apply bind_raise in H as [H|(cv & w1 & H1 & H)]; [by pure_step H|pure_step H1].
    apply bind_raise in H as [H|(a & w1 & H1 & H)]; [by pure_step H|pure_step H1].
    apply bind_raise in H as [H|(b & w1 & H1 & H)]; [by pure_step H|pure_step H1].
    by apply set_value_raise in H.
Qed.

Lemma constrain_raise loc value w e w' :
  constrain inUnitsOf PhysicalField loc value w = (Raise e, w') -> w' = w.
Proof.
  unfold constrain. intros H.
  apply bind_raise in H as [[=]|(w0 & w1 & [= <- <-] & H)].
  destruct (var (self w)) as [key|]; [|by injection H as _ <-].
  apply bind_raise in H as [H|(cv & w1 & H1 & H)]; [by pure_step H|pure_step H1].
  apply bind_raise in H as [H|(L & w1 & H1 & H)].
  { revert H. by destruct (_LOCs (self w)); intros [= _ <-]. }
  assert (w1 = w) as -> by (revert H1; by destruct (_LOCs (self w)); intros [= _ <-]).
  apply bind_raise in H as [H|(m & w1 & H2 & H)].
  { revert H. repeat case_bool_decide; by intros [= _ <-]. }
  assert (w1 = w) as -> by (revert H2; repeat case_bool_decide; by intros [= _ <-]).
  apply bind_raise in H as [H|(q & w1 & H3 & H)]; [by pure_step H|pure_step H3].
  apply bind_raise in H as [H|([] & w1 & _ & [=])].
  by apply update_var_raise in H.
Qed.

(** X15. [seed] assigns the value as its last step: when it raises, whatever the
    reason, the entity and every domain object, the variable among them,
    are as before.  It raises [ValueError] for a profile that is neither
    linear nor normal, and [KeyError] for a linear profile without
    [start]. *)
Theorem seed_atomic (profile : string) (kwargs : gmap string pyval) (w : world) :
  (forall e w', seed inUnitsOf normal_profile profile kwargs w = (Raise e, w') ->
     self w' = self w /\ domains w' = domains w) /\
  (profile <> "linear" -> profile <> "normal" ->
     seed inUnitsOf normal_profile profile kwargs w =
       (Raise (ValueError "Unknown profile {!r} not in {}"), w)) /\
  (profile = "linear" -> kwargs !! "start" = None ->
     seed inUnitsOf normal_profile profile kwargs w = (Raise (KeyError "start"), w)).
Proof.
  split; [intros e w' H; by apply seed_raise in H as ->|]. split.
  - intros H1 H2. unfold seed. rewrite bool_decide_eq_false_2; [done|].
    unfold PROFILES. rewrite !elem_of_cons, elem_of_nil. tauto.
  - intros -> Hs. unfold seed. simpl. unfold kwarg. rewrite Hs. done.
Qed.

(** X16. [constrain] records the constraint as its last step: when it raises,
    nothing has changed.  It raises [RuntimeError] before the variable is
    created, and [ValueError] for a location that is not one of the four,
    once the variable and the locations exist. *)
Theorem constrain_atomic (loc : string) (value : pyval) (w : world) :
  (forall e w', constrain inUnitsOf PhysicalField loc value w = (Raise e, w') -> w' = w) /\
  (var (self w) = None ->
     constrain inUnitsOf PhysicalField loc value w =
       (Raise (RuntimeError "Variable {} does not exist!"), w)) /\
  (is_Some (var_state w) -> is_Some (_LOCs (self w)) -> loc ∉ locs ->
     constrain inUnitsOf PhysicalField loc value w =
       (Raise (ValueError "loc={} not in {}"), w)).
Proof.
  split; [intros e w'; apply constrain_raise|]. split.
  - intros Hv. unfold constrain. unfold mbind at 1. unfold eff_bind, get. by rewrite Hv.
  - intros [cv Hcv] [L HL] Hloc. unfold constrain.
    unfold mbind at 1. unfold eff_bind, get.
    assert (is_Some (var (self w))) as [key Hk].
    { revert Hcv. unfold var_state. destruct (var (self w)); [by eexists|done]. }
    rewrite Hk. unfold mbind at 1. unfold eff_bind, the_var. rewrite Hcv.
    rewrite HL. unfold mbind at 1. unfold eff_bind, mret, eff_ret.
    unfold locs in Hloc. rewrite !elem_of_cons, elem_of_nil in Hloc.
    rewrite !bool_decide_eq_false_2 by tauto. done.
Qed.

(** *** The linear profile *)



(** *** What [setup] touches *)

(** Between two worlds: every domain object is still there, with its grid
    and geometry, and with its registry as before but for the entry [key];
    and the trace has only grown. *)
Definition others_kept (key : string) (w w' : world) : Prop :=
  (forall r, match domains w !! r with
             | Some d => exists d', domains w' !! r = Some d' /\
                 mesh d' = mesh d /\ geometry d' = geometry d /\
                 forall other, other <> key -> VARS d' !! other = VARS d !! other
             | None => domains w' !! r = None
             end) /\
  exists more, trace w' = trace w ++ more.

(** The steps of an entity named [key] whose array, once created, is the
    one registered under [key]. *)
Definition named (key : string) (w : world) : Prop :=
  name (self w) = key /\ (var (self w) = None \/ var (self w) = Some key).

Definition step_ok (key : string) (w w' : world) : Prop :=
  named key w ->
  named key w' /\ same_config (self w) (self w') /\
  (var (self w) = Some key -> var (self w') = Some key) /\
  (is_Some (var_state w) -> is_Some (var_state w')) /\
  others_kept key w w'.

Definition keeps {A} (key : string) (m : eff world A) : Prop :=
  forall w r w', m w = (r, w') -> step_ok key w w'.

Lemma others_kept_refl key w : others_kept key w w.
Proof.
  split; [|exists []; by rewrite app_nil_r].
  intros r. destruct (domains w !! r) as [d|]; [|done]. by exists d.
Qed.

Lemma others_kept_same key w w' :
  domains w' = domains w -> trace w' = trace w -> others_kept key w w'.
Proof.
  intros Hd Ht. split; [|exists []; by rewrite Ht, app_nil_r].
  intros r. rewrite Hd. destruct (domains w !! r) as [d|]; [|done]. by exists d.
Qed.

Lemma others_kept_trans key w1 w2 w3 :
  others_kept key w1 w2 -> others_kept key w2 w3 -> others_kept key w1 w3.
Proof.
  intros [H1 [m1 T1]] [H2 [m2 T2]]. split.
  - intros r. specialize (H1 r). specialize (H2 r).
    destruct (domains w1 !! r) as [d|].
    + destruct H1 as (d' & Hd' & Hm & Hg & Ho). rewrite Hd' in H2.
      destruct H2 as (d'' & Hd'' & Hm' & Hg' & Ho'). exists d''.
      split_and!; [done|congruence|congruence|].
      intros other Hne. rewrite Ho', Ho; done.
    + by rewrite H1 in H2.
  - exists (m1 ++ m2). by rewrite T2, T1, app_assoc.
Qed.

Lemma step_ok_refl key w : step_ok key w w.
Proof. intros Hn. split_and!; try done. apply others_kept_refl. Qed.

Lemma step_ok_trans key w1 w2 w3 :
  step_ok key w1 w2 -> step_ok key w2 w3 -> step_ok key w1 w3.
Proof.
  intros H12 H23 Hn. destruct (H12 Hn) as (Hn2 & Hc2 & Hv2 & Hs2 & Ho2).
  destruct (H23 Hn2) as (Hn3 & Hc3 & Hv3 & Hs3 & Ho3).
  split_and!; [done| |by auto|by auto|by eapply others_kept_trans].
  destruct Hc2 as (?&?&?&?&?), Hc3 as (?&?&?&?&?).
  unfold same_config. split_and!; congruence.
Qed.

Lemma keeps_pure {A} key (m : eff world A) :
  (forall w, (m w).2 = w) -> keeps key m.
Proof.
  intros Hm w r w' H. specialize (Hm w). rewrite H in Hm. simpl in Hm. subst.
  apply step_ok_refl.
Qed.

Lemma keeps_bind {A B} key (m : eff world A) (f : A -> eff world B) :
  keeps key m -> (forall a, keeps key (f a)) -> keeps key (m ≫= f).
Proof.
  intros Hm Hf w r w'. unfold mbind, eff_bind.
  destruct (m w) as [[a|e] w1] eqn:E.
  - intros H. eapply step_ok_trans; [by eapply Hm|by eapply Hf].
  - intros [= <- <-]. by eapply Hm.
Qed.

Lemma keeps_for_each {A} key (body : A -> eff world ()) xs :
  (forall x, keeps key (body x)) -> keeps key (for_each body xs).
Proof.
  intros Hb. induction xs as [|x xs IH]; simpl.
  - by apply keeps_pure.
  - apply keeps_bind; [apply Hb|]. by intros _.
Qed.

Lemma keeps_emit key ev : keeps key (emit ev).
Proof.
  intros w r w' [= <- <-] Hn. split_and!; try done.
  split; [|by eexists].
  intros r. simpl. destruct (domains w !! r) as [d|]; [|done]. by exists d.
Qed.

Lemma keeps_update_var key f : keeps key (update_var f).
Proof.
  intros w r w' H Hn. destruct r as [[]|e].
  2:{ apply update_var_raise in H as ->. by apply step_ok_refl. }
  pose proof (update_var_ok _ _ _ H) as (Hs & Ht & cv & Hv & Hv').
  split_and!.
  - unfold named. by rewrite Hs.
  - rewrite Hs. by split_and!.
  - by rewrite Hs.
  - by rewrite Hv'.
  - split; [|exists []; by rewrite Ht, app_nil_r].
    revert H. unfold update_var.
    destruct (var (self w)) as [k|] eqn:Hk; [|done].
    destruct (_domain (base (self w))) as [r0|]; [|done].
    destruct (domains w !! r0) as [d0|] eqn:Hd0; [|done].
    destruct (VARS d0 !! k) as [cv0|]; [|done].
    intros [= <-] r. simpl.
    assert (k = key) as -> by (destruct Hn as [_ [Hn|Hn]]; congruence).
    destruct (decide (r0 = r)) as [->|Hne].
    + rewrite Hd0, lookup_insert_eq. eexists. split; [done|]. simpl.
      split_and!; try done. intros other Ho. by apply lookup_insert_ne.
    + rewrite lookup_insert_ne by done.
      destruct (domains w !! r) as [d|]; [|done]. by exists d.
Qed.

Lemma keeps_set_value key val : keeps key (set_value val).
Proof.
  unfold set_value. apply keeps_bind; [by apply keeps_pure|]. intros w.
  apply keeps_bind; [apply keeps_update_var|]. intros _. apply keeps_emit.
Qed.

Lemma keeps_updateOld key : keeps key updateOld.
Proof.
  unfold updateOld. apply keeps_bind; [by apply keeps_pure|]. intros w.
  apply keeps_bind; [apply keeps_update_var|]. intros _. apply keeps_emit.
Qed.

Lemma keeps_kwarg key kwargs k : keeps key (kwarg kwargs k).
Proof. apply keeps_pure. intros w. unfold kwarg. by destruct (kwargs !! k). Qed.

Lemma keeps_the_var key : keeps key the_var.
Proof. apply keeps_pure. intros w. unfold the_var. by destruct (var_state w). Qed.

Lemma keeps_the_domain key : keeps key the_domain.
Proof. apply keeps_pure. intros w. unfold the_domain. by repeat case_match. Qed.

Lemma keeps_lift {A} key (x : result A) : keeps key (lift x).
Proof. by apply keeps_pure. Qed.

Lemma keeps_raise {A} key e : keeps key (raise (A := A) e).
Proof. by apply keeps_pure. Qed.

Lemma keeps_seed key profile kwargs :
  keeps key (seed inUnitsOf normal_profile profile kwargs).
Proof.
  unfold seed. destruct (negb _); [apply keeps_raise|].
  destruct (bool_decide (profile = "normal")).
  - repeat (apply keeps_bind; [first [apply keeps_kwarg|apply keeps_the_domain
                                      |apply keeps_the_var|apply keeps_lift]|intros ?]).
    destruct a2. repeat (apply keeps_bind; [first [apply keeps_the_var|apply keeps_lift]|intros ?]).
    apply keeps_set_value.
  - repeat (apply keeps_bind; [first [apply keeps_kwarg|apply keeps_the_domain
                                      |apply keeps_the_var|apply keeps_lift]|intros ?]).
    apply keeps_set_value.
Qed.

Lemma keeps_constrain key loc value :
  keeps key (constrain inUnitsOf PhysicalField loc value).
Proof.
  unfold constrain. apply keeps_bind; [by apply keeps_pure|]. intros w.
  destruct (var (self w)); [|apply keeps_raise].
  apply keeps_bind; [apply keeps_the_var|]. intros cv.
  apply keeps_bind.
  { destruct (_LOCs (self w)); [by apply keeps_pure|apply keeps_raise]. }
  intros L. apply keeps_bind.
  { repeat case_bool_decide; first [by apply keeps_pure|apply keeps_raise]. }
  intros m. apply keeps_bind; [apply keeps_lift|]. intros q.
  apply keeps_bind; [apply keeps_update_var|]. intros _. apply keeps_emit.
Qed.

Lemma keeps_warn_invalid_pair key pair : keeps key (warn_invalid_pair pair).
Proof.
  unfold warn_invalid_pair. apply keeps_bind; [by apply keeps_pure|]. intros w.
  destruct (_ && _); [apply keeps_emit|by apply keeps_pure].
Qed.

Lemma keeps_set_LOCs key L :
  keeps key (set_self (fun s =>
    {| base := base s; name := name s; var := var s;
       create_params := create_params s; constraints := constraints s;
       seed_params := seed_params s; _LOCs := L |})).
Proof.
  intros w r w' [= <- <-] Hn. split_and!; try done. by apply others_kept_same.
Qed.

Lemma keeps_create key params : keeps key (create params).
Proof.
  intros w r w' H Hn. unfold create in H.
  destruct (cs_name params); [injection H as _ <-; by apply step_ok_refl|].
  destruct (cs_value params) as [value|]; [|injection H as _ <-; by apply step_ok_refl].
  unfold mbind at 1 in H. unfold eff_bind in H.
  destruct (the_domain w) as [[[r0 d]|e] w0] eqn:Hd.
  2:{ apply the_domain_state in Hd as ->. injection H as _ <-. by apply step_ok_refl. }
  assert (w0 = w /\ _domain (base (self w)) = Some r0 /\ domains w !! r0 = Some d)
    as (-> & Hr & Hd0).
  { revert Hd. unfold the_domain. repeat case_match; try done. by intros [= <- <- <-]. }
  unfold mbind at 1 in H. unfold eff_bind, get in H.
  destruct (create_var (name (self w)) _ d) as [res d'] eqn:Hc.
  pose proof (create_var_frame _ _ _ _ _ Hc) as [Hg Hm].
  destruct Hn as [Hname Hvar]. rewrite Hname in Hc.
  assert (forall other, other <> key -> VARS d' !! other = VARS d !! other) as Hother.
  { intros other Ho. destruct res as [cv|e].
    - apply create_var_ok in Hc as (m & _ & _ & _ & _ & _ & HV).
      rewrite HV. by apply lookup_insert_ne.
    - by apply create_var_raise in Hc as ->. }
  assert (forall w2, domains w2 = <[r0 := d']> (domains w) ->
            (exists more, trace w2 = trace w ++ more) -> others_kept key w w2) as Hkept.
  { intros w2 Hd2 Ht2. split; [|done]. intros r1. rewrite Hd2.
    destruct (decide (r0 = r1)) as [->|Hne].
    - rewrite Hd0, lookup_insert_eq. by exists d'.
    - rewrite lookup_insert_ne by done.
      destruct (domains w !! r1) as [d1|]; [|done]. by exists d1. }
  unfold mbind at 1 in H. unfold eff_bind, put_domain in H.
  unfold mbind at 1 in H. unfold eff_bind, lift in H.
  destruct res as [cv|e].
  - unfold mbind, eff_bind, set_self, emit, mret, eff_ret in H. simpl in H.
    injection H as <- <-. rewrite Hname.
    split_and!; simpl; try done.
    + split; [done|by right].
    + intros _. unfold var_state. simpl. rewrite Hr. simpl.
      rewrite lookup_insert_eq. simpl.
      apply create_var_ok in Hc as (m & _ & _ & _ & _ & _ & HV).
      rewrite HV, lookup_insert_eq. by eexists.
    + apply Hkept; [done|by eexists].
  - injection H as <- <-. split_and!; simpl; try done.
    + apply create_var_raise in Hc as ->. unfold var_state. simpl.
      by rewrite insert_id.
    + apply Hkept; [done|]. exists []. by rewrite app_nil_r.
Qed.

Lemma keeps_seed_part key (w : world) :
  keeps key
    (match seed_params (self w) with
     | Some sp =>
         profile ← match sp_profile sp with Some p => mret p | None => raise (KeyError "profile") end;
         params ← match sp_params sp with Some p => mret p | None => raise (KeyError "params") end;
         seed inUnitsOf normal_profile profile params ;;
         if cs_hasOld (create_params (self w)) then updateOld else mret ()
     | None => mret ()
     end).
Proof.
  destruct (seed_params (self w)) as [sp|]; [|by apply keeps_pure].
  apply keeps_bind.
  { destruct (sp_profile sp); [by apply keeps_pure|apply keeps_raise]. }
  intros profile. apply keeps_bind.
  { destruct (sp_params sp); [by apply keeps_pure|apply keeps_raise]. }
  intros params. apply keeps_bind; [apply keeps_seed|]. intros _.
  destruct (cs_hasOld _); [apply keeps_updateOld|by apply keeps_pure].
Qed.

Lemma keeps_after_create key (w : world) :
  keeps key
    (match seed_params (self w) with
     | Some sp =>
         profile ← match sp_profile sp with Some p => mret p | None => raise (KeyError "profile") end;
         params ← match sp_params sp with Some p => mret p | None => raise (KeyError "params") end;
         seed inUnitsOf normal_profile profile params ;;
         if cs_hasOld (create_params (self w)) then updateOld else mret ()
     | None => mret ()
     end ;;
     '(r, d) ← the_domain;
     set_self (fun s =>
       {| base := base s; name := name s; var := var s;
          create_params := create_params s; constraints := constraints s;
          seed_params := seed_params s;
          _LOCs := Some {| top := facesLeft; bottom := facesRight;
                           dbl := slice (Some 0) (Some (idx_surface d));
                           sediment := slice (Some (idx_surface d)) None |} |}) ;;
     for_each warn_invalid_pair invalid_pairs ;;
     for_each (fun item : string * pyval => constrain inUnitsOf PhysicalField item.1 item.2)
       (map_to_list (constraints (self w)))).
Proof.
  apply keeps_bind; [apply keeps_seed_part|].
  intros _. apply keeps_bind; [apply keeps_the_domain|]. intros [r d].
  apply keeps_bind; [apply keeps_set_LOCs|]. intros _.
  apply keeps_bind; [apply keeps_for_each; apply keeps_warn_invalid_pair|]. intros _.
  apply keeps_for_each. intros item. apply keeps_constrain.
Qed.

Lemma keeps_setup key : keeps key (setup inUnitsOf PhysicalField normal_profile).
Proof.
  unfold setup. apply keeps_bind; [by apply keeps_pure|]. intros _.
  apply keeps_bind; [by apply keeps_pure|]. intros w.
  apply keeps_bind; [apply keeps_create|]. intros _.
  apply keeps_after_create.
Qed.

(** X18. [setup], whether it returns or raises, leaves every domain object in
    place with its grid and geometry, changes no entry of a registry other
    than the one under the name of the entity, only adds to the trace, and
    leaves the configuration of the entity as it was. *)
Theorem setup_frame (w : world) r w' :
  var (self w) = None ->
  setup inUnitsOf PhysicalField normal_profile w = (r, w') ->
  others_kept (name (self w)) w w' /\ same_config (self w) (self w').
Proof.
  intros Hv H. destruct (keeps_setup (name (self w)) w r w' H) as (_ & Hc & _ & _ & Ho).
  - split; [done|by left].
  - done.
Qed.

(** *** [setup] is not repeatable *)

Lemma create_ok_domain params w cv w' :
  create params w = (Ok cv, w') ->
  exists value r d d' m,
    cs_name params = None /\ cs_value params = Some value /\
    name (self w) <> EmptyString /\
    _domain (base (self w')) = Some r /\ domains w !! r = Some d /\
    domains w' !! r = Some d' /\ mesh d' = Some m /\ geometry d' = geometry d.
Proof.
  unfold create. destruct (cs_name params); [done|].
  destruct (cs_value params) as [value|]; [|done]. intros H.
  apply bind_ok in H as ([r d] & w1 & H1 & H).
  assert (w1 = w /\ _domain (base (self w)) = Some r /\ domains w !! r = Some d)
    as (-> & Hr & Hd).
  { revert H1. unfold the_domain. repeat case_match; try done. by intros [= <- <- <-]. }
  apply bind_ok in H as (w0 & w1 & [= <- <-] & H).
  destruct (create_var _ _ d) as [res d'] eqn:Hc.
  apply bind_ok in H as ([] & w1 & [= <-] & H).
  apply bind_ok in H as (cv' & w1 & H2 & H).
  unfold lift in H2. injection H2 as -> <-.
  apply bind_ok in H as ([] & w1 & [= <-] & H).
  apply bind_ok in H as ([] & w1 & [= <-] & H).
  injection H as <- <-.
  pose proof (create_var_frame _ _ _ _ _ Hc) as [Hg Hm].
  apply create_var_ok in Hc as (m & Hmesh & Hne & _).
  exists value, r, d, d', m. simpl. split_and!; try done.
  - by rewrite lookup_insert_eq.
  - congruence.
Qed.

Lemma create_again params w value r d m :
  cs_name params = None -> cs_value params = Some value ->
  _domain (base (self w)) = Some r -> domains w !! r = Some d -> mesh d = Some m ->
  name (self w) <> EmptyString -> is_Some (VARS d !! name (self w)) ->
  create params w = (Raise (RuntimeError "Domain variable {} already exists!"), w).
Proof.
  intros Hn Hv Hr Hd Hm Hne Hreg. unfold create. rewrite Hn, Hv.
  unfold mbind at 1. unfold eff_bind, the_domain. rewrite Hr, Hd.
  unfold mbind at 1. unfold eff_bind, get.
  unfold create_var. rewrite Hm.
  rewrite bool_decide_eq_false_2 by done. rewrite bool_decide_eq_true_2 by done.
  unfold mbind at 1. unfold eff_bind, put_domain.
  unfold mbind at 1. unfold eff_bind, lift. simpl.
  rewrite insert_id by done. by destruct w.
Qed.

(** X19. A second [setup] of a variable that was set up raises [RuntimeError],
    for the name that is already in the registry of the domain, and changes
    nothing: neither the variable, nor its constraints, nor the trace. *)
Theorem setup_not_repeatable (w w' : world) :
  setup inUnitsOf PhysicalField normal_profile w = (Ok (), w') ->
  setup inUnitsOf PhysicalField normal_profile w' =
    (Raise (RuntimeError "Domain variable {} already exists!"), w').
Proof.
  intros H. unfold setup in H.
  apply bind_ok in H as (b & w0 & H0 & H).
  assert (w0 = w) as -> by (revert H0; unfold check_domain; by intros [= _ <-]).
  apply bind_ok in H as (w0 & w1 & [= <- <-] & H).
  apply bind_ok in H as (cv0 & w1 & Hc & H).
  pose proof (create_ok_domain _ _ _ _ Hc)
    as (value & r & d0 & d1 & m & Hcn & Hcv & Hne & Hr1 & _ & Hd1 & Hm1 & _).
  apply create_ok in Hc as (r' & _ & Hcfg & Hvar & _ & Hv1 & _).
  destruct (keeps_after_create (name (self w)) w w1 _ _ H) as (Hn' & Hcfg' & Hvar' & Hst' & Ho').
  { destruct Hcfg as (_ & Hn & _). split; [done|by right]. }
  destruct Hcfg as (Hb & Hn & Hcp & _), Hcfg' as (Hb' & Hn2 & Hcp' & _).
  specialize (Hvar' Hvar). destruct Hst' as [cv' Hcv']; [by rewrite Hv1|].
  destruct Ho' as [Hdom _]. specialize (Hdom r). rewrite Hd1 in Hdom.
  destruct Hdom as (d2 & Hd2 & Hm2 & _).
  assert (_domain (base (self w')) = Some r) as Hr2 by (rewrite Hb'; done).
  unfold setup. unfold mbind at 1. unfold eff_bind, check_domain, Core.check_domain,
    Core.has_domain, Core.domain. rewrite Hr2. simpl.
  unfold mbind at 1. unfold eff_bind, get.
  unfold mbind at 1. unfold eff_bind.
  erewrite create_again; [done|..].
  - by rewrite Hcp', Hcp.
  - rewrite Hcp', Hcp. done.
  - done.
  - done.
  - by rewrite Hm2.
  - by rewrite Hn2, Hn.
  - revert Hcv'. unfold var_state. rewrite Hvar', Hr2. simpl. rewrite Hd2. simpl.
    rewrite Hn2, Hn. by eexists.
Qed.


(** X14. [constrain] at dbl and at sediment, with the locations of [setup] on a
    variable whose cells the surface index [idx] splits: when it returns,
    the variable holds one more constraint, of the value converted to the
    unit of the variable, on a mask of as many cells as the variable has;
    at dbl the mask holds exactly on the cells before [idx], at sediment
    exactly on the others. *)
Theorem constrain_region_masks (loc : string) (value : pyval) (w w' : world)
    (cv : CellVariable) (L : LOCs) (idx : Z) :
  var_state w = Some cv -> _LOCs (self w) = Some L ->
  dbl L = slice (Some 0) (Some idx) -> sediment L = slice (Some idx) None ->
  0 <= idx <= Z.of_nat (length (cv_value cv)) ->
  loc = "dbl" \/ loc = "sediment" ->
  constrain inUnitsOf PhysicalField loc value w = (Ok (), w') ->
  exists q bs,
    constraint_value inUnitsOf PhysicalField value (cv_unit cv) = Ok q /\
    var_state w' = Some (with_constraint (q, cells bs) cv) /\
    length bs = length (cv_value cv) /\
    forall i, (i < length (cv_value cv))%nat ->
      bs !! i = Some (if bool_decide (loc = "dbl")
                      then bool_decide (i < Z.to_nat idx)%nat
                      else negb (bool_decide (i < Z.to_nat idx)%nat)).
Proof.
  intros Hcv HL Hdbl Hsed Hidx Hloc H.
  apply constrain_ok in H as (key & q & m & cv' & L' & _ & HL' & _ & _ & Hcv' & Hv' & Hq & Hm).
  rewrite Hcv in Hcv'. injection Hcv' as <-.
  rewrite HL in HL'. injection HL' as <-.
  destruct (mask_of_slice_regions (length (cv_value cv)) idx Hidx)
    as (md & ms & Hmd & Hms & Hld & Hls & Hcells).
  unfold loc_mask in Hm. destruct Hloc as [-> | ->]; simpl in Hm; injection Hm as <-.
  - rewrite Hdbl, Hmd in Hv'. exists q, md. split_and!; try done.
    intros i Hi. by destruct (Hcells i Hi) as [-> _].
  - rewrite Hsed, Hms in Hv'. exists q, ms. split_and!; try done.
    intros i Hi. by destruct (Hcells i Hi) as [_ ->].
Qed.
End MoreWithFipy.


(** The variable of [oxy_world], set up. *)
Definition oxy_set_up : world :=
  (setup same_unit plain_number no_depths oxy_world).2.

Lemma constrain_region_masks_witness :
  exists w' cv q bs,
    constrain same_unit plain_number "sediment" (PyNum 1) oxy_set_up = (Ok (), w') /\
    var_state oxy_set_up = Some cv /\
    q = 1%Q /\
    var_state w' = Some (with_constraint (q, cells bs) cv) /\
    length bs = 110%nat /\
    bs !! 9%nat = Some false /\ bs !! 10%nat = Some true.
Proof.
  assert (exists w', constrain same_unit plain_number "sediment" (PyNum 1) oxy_set_up = (Ok (), w'))
    as [w' Hrun] by (eexists; vm_compute; reflexivity).
  assert (exists cv, var_state oxy_set_up = Some cv /\ length (cv_value cv) = 110%nat)
    as (cv & Hcv & Hlen) by (eexists; split; vm_compute; reflexivity).
  assert (exists L, _LOCs (self oxy_set_up) = Some L /\
                    dbl L = slice (Some 0) (Some 10) /\ sediment L = slice (Some 10) None)
    as (L & HL & Hdbl & Hsed) by (eexists; split_and!; vm_compute; reflexivity).
  destruct (constrain_region_masks same_unit plain_number "sediment" (PyNum 1)
              oxy_set_up w' cv L 10 Hcv HL Hdbl Hsed ltac:(rewrite Hlen; lia)
              ltac:(right; reflexivity) Hrun)
    as (q & bs & Hq & Hv' & Hl & Hbs).
  exists w', cv, q, bs.
  split; [exact Hrun|]. split; [exact Hcv|].
  split; [simpl in Hq; congruence|].
  split; [exact Hv'|].
  split; [by rewrite Hl|].
  split.
  - rewrite (Hbs 9%nat) by (rewrite Hlen; lia). reflexivity.
  - rewrite (Hbs 10%nat) by (rewrite Hlen; lia). reflexivity.
Defined.

(** The variable of [oxy_world], created. *)
Definition oxy_created : world :=
  (create (create_params (self oxy_world)) oxy_world).2.

Lemma seed_atomic_witness :
  seed same_unit no_depths "cubic" ∅ oxy_created =
    (Raise (ValueError "Unknown profile {!r} not in {}"), oxy_created) /\
  seed same_unit no_depths "linear" {[ "stop" := PyNum 10 ]} oxy_created =
    (Raise (KeyError "start"), oxy_created).
Proof.
  split.
  - destruct (seed_atomic same_unit no_depths "cubic" ∅ oxy_created) as (_ & H & _).
    apply H; discriminate.
  - destruct (seed_atomic same_unit no_depths "linear" {[ "stop" := PyNum 10 ]} oxy_created)
      as (_ & _ & H).
    apply H; [reflexivity|vm_compute; reflexivity].
Defined.

Lemma constrain_atomic_witness :
  constrain same_unit plain_number "top" (PyNum 1) oxy_world =
    (Raise (RuntimeError "Variable {} does not exist!"), oxy_world).
Proof.
  destruct (constrain_atomic same_unit plain_number "top" (PyNum 1) oxy_world) as (_ & H & _).
  apply H. reflexivity.
Defined.


Lemma setup_frame_witness :
  exists w',
    setup same_unit plain_number no_depths oxy_world = (Ok (), w') /\
    others_kept "oxy" oxy_world w' /\ same_config (self oxy_world) (self w').
Proof.
  assert (exists w', setup same_unit plain_number no_depths oxy_world = (Ok (), w'))
    as [w' Hrun] by (eexists; vm_compute; reflexivity).
  exists w'. split; [exact Hrun|].
  exact (setup_frame same_unit plain_number no_depths oxy_world _ w' eq_refl Hrun).
Defined.

Lemma setup_not_repeatable_witness :
  exists w',
    setup same_unit plain_number no_depths oxy_world = (Ok (), w') /\
    setup same_unit plain_number no_depths w' =
      (Raise (RuntimeError "Domain variable {} already exists!"), w').
Proof.
  assert (exists w', setup same_unit plain_number no_depths oxy_world = (Ok (), w'))
    as [w' Hrun] by (eexists; vm_compute; reflexivity).
  exists w'. split; [exact Hrun|].
  exact (setup_not_repeatable same_unit plain_number no_depths oxy_world w' Hrun).
Defined.

End Var.

(** * Processes: [process.py] *)

Module Process.

(** ** Expressions

    The expressions of sympy, for the operators of the formulas. *)
Inductive expr : Type :=
| Num (q : Q)
| Sym (s : string)
| Add (a b : expr)
| Sub (a b : expr)
| Mul (a b : expr)
| Div (a b : expr)
| Neg (a : expr).

(** [expr.atoms()] restricted to the instances of [Symbol], by name. *)
Fixpoint symbols (e : expr) : list string :=
  match e with
  | Num _ => []
  | Sym s => [s]
  | Add a b | Sub a b | Mul a b | Div a b => symbols a ++ symbols b
  | Neg a => symbols a
  end.

(** [not expr]: of the expressions, the number zero is false. *)
Definition is_false (e : expr) : bool :=
  match e with
  | Num q => Qeq_bool q 0
  | _ => false
  end.

(** ** A reader of formulas

    sympy's [sympify] is a parameter of the embedding.  This reader of
    sums, products and quotients of names and integers stands for it on the
    formulas of the examples; it does not simplify what it reads. *)
Inductive token : Type :=
| TNum (n : Z)
| TName (s : string)
| TOp (c : ascii)
| TOpen
| TClose.

Definition is_letter (c : ascii) : bool :=
  let n := nat_of_ascii c in
  ((65 <=? n)%nat && (n <=? 90)%nat) || ((97 <=? n)%nat && (n <=? 122)%nat) ||
  bool_decide (n = 95%nat).

Definition digits_value (l : list ascii) : Z :=
  foldl (fun acc c => 10 * acc + (Z.of_nat (nat_of_ascii c) - 48)) 0 l.

Fixpoint tokens (fuel : nat) (l : list ascii) : option (list token) :=
  match fuel with
  | O => None
  | S fuel =>
      match l with
      | [] => Some []
      | c :: rest =>
          if Var.is_space c then tokens fuel rest
          else if Var.is_digit c then
            let n := Var.count_while Var.is_digit l in
            cons (TNum (digits_value (take n l))) <$> tokens fuel (drop n l)
          else if is_letter c then
            let f := fun c => is_letter c || Var.is_digit c in
            let n := Var.count_while f l in
            cons (TName (String.string_of_list_ascii (take n l))) <$> tokens fuel (drop n l)
          else if bool_decide (c = "("%char) then cons TOpen <$> tokens fuel rest
          else if bool_decide (c = ")"%char) then cons TClose <$> tokens fuel rest
          else if bool_decide (c ∈ ["+"; "-"; "*"; "/"]%char) then cons (TOp c) <$> tokens fuel rest
          else None
      end
  end.

(** Sums of products of factors, left to right. *)
Inductive level : Type := LSum | LProd | LFactor.

Definition sum_op (c : ascii) : option (expr -> expr -> expr) :=
  if bool_decide (c = "+"%char) then Some Add
  else if bool_decide (c = "-"%char) then Some Sub else None.

Definition prod_op (c : ascii) : option (expr -> expr -> expr) :=
  if bool_decide (c = "*"%char) then Some Mul
  else if bool_decide (c = "/"%char) then Some Div else None.

Fixpoint read_tail (fuel : nat) (op : ascii -> option (expr -> expr -> expr))
    (next : list token -> option (expr * list token)) (acc : expr) (ts : list token) :
    option (expr * list token) :=
  match fuel with
  | O => None
  | S fuel =>
      match ts with
      | TOp c :: rest =>
          match op c with
          | Some mk =>
              match next rest with
              | Some (e, rest) => read_tail fuel op next (mk acc e) rest
              | None => None
              end
          | None => Some (acc, ts)
          end
      | _ => Some (acc, ts)
      end
  end.

Fixpoint read (fuel : nat) (lv : level) (ts : list token) : option (expr * list token) :=
  match fuel with
  | O => None
  | S fuel =>
      match lv with
      | LSum =>
          match read fuel LProd ts with
          | Some (e, rest) => read_tail fuel sum_op (read fuel LProd) e rest
          | None => None
          end
      | LProd =>
          match read fuel LFactor ts with
          | Some (e, rest) => read_tail fuel prod_op (read fuel LFactor) e rest
          | None => None
          end
      | LFactor =>
          match ts with
          | TNum n :: rest => Some (Num (inject_Z n), rest)
          | TName s :: rest => Some (Sym s, rest)
          | TOp c :: rest =>
              if bool_decide (c = "-"%char)
              then match read fuel LFactor rest with
                   | Some (e, rest) => Some (Neg e, rest)
                   | None => None
                   end
              else None
          | TOpen :: rest =>
              match read fuel LSum rest with
              | Some (e, TClose :: rest) => Some (e, rest)
              | _ => None
              end
          | _ => None
          end
      end
  end.

Definition read_formula (s : string) : option expr :=
  let l := String.list_ascii_of_string s in
  match tokens (S (length l)) l with
  | Some ts =>
      match read (4 * S (length ts)) LSum ts with
      | Some (e, []) => Some e
      | _ => None
      end
  | None => None
  end.

Example read_formula_cases :
  read_formula "a*b" = Some (Mul (Sym "a") (Sym "b")) /\
  read_formula "a" = Some (Sym "a") /\
  read_formula "Vmax * oxy / (Km + oxy)" =
    Some (Div (Mul (Sym "Vmax") (Sym "oxy")) (Add (Sym "Km") (Sym "oxy"))) /\
  read_formula "a - b - 2" = Some (Sub (Sub (Sym "a") (Sym "b")) (Num 2)) /\
  read_formula "a*" = None /\
  read_formula "" = None.
Proof. vm_compute. repeat split. Qed.

(** ** Values

    The arrays and numbers the compiled functions compute with, and their
    arithmetic, are those of numpy: the embedding takes them as they
    come. *)
Section WithValues.
Context {V : Type}.
Variable vnum : Q -> V.
Variables vadd vsub vmul vdiv : V -> V -> V.
Variable vneg : V -> V.
(** [not v] for a value. *)
Variable vfalse : V -> bool.
Variable sympify : string -> option expr.

(** A parameter value: a number or an array, or, under the name of a
    response, the mapping of the parameters of the response. *)
Inductive pval : Type :=
| PVal (v : V)
| PMap (kvs : list (string * pval)).

(** [d[key]] and [d.get(key)] on the items of a dictionary. *)
Fixpoint assoc {A} (key : string) (kvs : list (string * A)) : option A :=
  match kvs with
  | [] => None
  | (k, v) :: rest => if bool_decide (k = key) then Some v else assoc key rest
  end.

(** [d[key] = v] on an [OrderedDict]: a key keeps its place. *)
Fixpoint odict_set {A} (key : string) (v : A) (kvs : list (string * A)) : list (string * A) :=
  match kvs with
  | [] => [(key, v)]
  | (k, v') :: rest =>
      if bool_decide (k = key) then (k, v) :: rest else (k, v') :: odict_set key v rest
  end.

Inductive process : Type :=
  Proc (formula : string) (e : expr) (varnames : list string)
       (params : list (string * pval)) (responses : list (string * process))
       (args : list expr).

Definition formula (p : process) : string := let '(Proc f _ _ _ _ _) := p in f.
Definition expr_of (p : process) : expr := let '(Proc _ e _ _ _ _) := p in e.
Definition varnames (p : process) : list string := let '(Proc _ _ v _ _ _) := p in v.
Definition params (p : process) : list (string * pval) := let '(Proc _ _ _ ps _ _) := p in ps.
Definition responses (p : process) : list (string * process) :=
  let '(Proc _ _ _ _ rs _) := p in rs.
Definition args (p : process) : list expr := let '(Proc _ _ _ _ _ a) := p in a.

Definition argnames (p : process) : list string := varnames p ++ (fst <$> params p).

(** The body of the function [lambdify] makes: the expression with the
    arguments bound to its symbols; a symbol that is not an argument is a
    global name, which is not defined. *)
Fixpoint eval (env : list (string * pval)) (e : expr) : result V :=
  match e with
  | Num q => Ok (vnum q)
  | Sym s =>
      match assoc s env with
      | Some (PVal v) => Ok v
      | Some (PMap _) => Raise (TypeError "unsupported operand type(s)")
      | None => Raise (NameError "global name is not defined")
      end
  | Add a b => x ← eval env a; y ← eval env b; Ok (vadd x y)
  | Sub a b => x ← eval env a; y ← eval env b; Ok (vsub x y)
  | Mul a b => x ← eval env a; y ← eval env b; Ok (vmul x y)
  | Div a b => x ← eval env a; y ← eval env b; Ok (vdiv x y)
  | Neg a => x ← eval env a; Ok (vneg x)
  end.

Definition symbol_name (a : expr) : string :=
  match a with Sym s => s | _ => EmptyString end.

(** [self.expr_func( *args )] *)
Definition expr_func (p : process) (values : list pval) : result V :=
  if bool_decide (length values = length (args p))
  then eval (zip (symbol_name <$> args p) values) (expr_of p)
  else Raise (TypeError "<lambda>() takes exactly {} arguments").

(** [reduce(operator.mul, xs)] for a list that is not empty. *)
Definition reduce_mul (x : V) (xs : list V) : V := foldl vmul x xs.

(** [P[key]], [P.get(key)] and [not P], for what [evaluate] may get as
    [P]: [None], a mapping, or what a mapping holds. *)
Definition getitem (P : pval) (key : string) : result pval :=
  match P with
  | PMap kvs =>
      match assoc key kvs with
      | Some v => Ok v
      | None => Raise (KeyError key)
      end
  | PVal _ => Raise (TypeError "object has no attribute __getitem__")
  end.

Definition get_or_none (P : pval) (key : string) : result (option pval) :=
  match P with
  | PMap kvs => Ok (assoc key kvs)
  | PVal _ => Raise (AttributeError "object has no attribute get")
  end.

Definition not_ (P : pval) : bool :=
  match P with
  | PMap kvs => bool_decide (kvs = [])
  | PVal v => vfalse v
  end.

Fixpoint evaluate (p : process) (D : gmap string V) (P : option pval) (full : bool) :
    result V :=
  let P := match P with None => PMap [] | Some P => P end in
  varargs ← mapM (M := result) (fun v =>
               match D !! v with
               | Some x => Ok (PVal x)
               | None => Raise (KeyError v)
               end) (varnames p);
  let P := if not_ P then PMap (params p) else P in
  pargs ← mapM (M := result) (fun k => getitem P k) (fst <$> params p);
  evaled ← expr_func p (varargs ++ pargs);
  resp_evals ←
    (if full
     then (fix each (rs : list (string * process)) : result (list V) :=
             match rs with
             | [] => Ok []
             | (resp_name, response) :: rs =>
                 override ← get_or_none P resp_name;
                 x ← evaluate response D override true;
                 xs ← each rs;
                 Ok (x :: xs)
             end) (responses p)
     else Ok []);
  match resp_evals with
  | x :: xs => Ok (vmul evaled (reduce_mul x xs))
  | [] => Ok evaled
  end.

(** *** Construction *)

(** The keyword arguments of [ExprProcess.__init__]; a response comes as
    the dictionary [from_dict] reads, with its keys [cls] and
    [init_params] when it has them. *)
Inductive init_args : Type :=
  InitArgs (formula : string) (varnames : list string) (params : list (string * pval))
           (responses : list (string * (option string * option init_args))).

(** Whether a path names the class [ExprProcess], the one class embedded
    here.  [from_dict] imports whatever class the path names and calls
    it; no other class is modelled, so a path for which [is_ExprProcess]
    does not hold is taken as one under which nothing is found, for which
    [from_params] raises [TypeError].  What the code does for a path to
    another class that exists is outside this embedding: the statements
    on responses concern entries of class [ExprProcess]. *)
Variable is_ExprProcess : string -> bool.

Definition check_names (names : list string) : result () :=
  let improper := filter (fun n => sympify n = None) names in
  if bool_decide (improper = []) then Ok ()
  else Raise (ValueError "Improper names found: {}").

Definition parse_formula (formula : string) : result expr :=
  match sympify formula with
  | Some e => Ok e
  | None => Raise (ValueError "Could not parse formula")
  end.

(** [set(args).difference(eatoms)]: the arguments that are not symbols of
    the expression. *)
Definition is_atom (eatoms : list string) (a : expr) : bool :=
  match a with
  | Sym s => bool_decide (s ∈ eatoms)
  | _ => false
  end.

Definition mismatched (args : list expr) (eatoms : list string) : list expr :=
  filter (fun a => is_atom eatoms a = false) args.

(** [_lambdify] returns the function [expr_func] computes with: the
    expression and the arguments. *)
Definition _lambdify (e : expr) (args : list expr) : result (expr * list expr) :=
  if is_false e then Raise (ValueError "No expression to lambdify!")
  else
    let eatoms := symbols e in
    if bool_decide (mismatched args eatoms = []) then Ok (e, args)
    else Raise (ValueError "Expression & var/params mismatch!").

Fixpoint init (a : init_args) : result process :=
  let '(InitArgs formula varnames params responses) := a in
  check_names (fst <$> params) ;;
  check_names varnames ;;
  e ← parse_formula formula;
  check_names (fst <$> responses) ;;
  rs ← (fix add_responses (todo : list (string * (option string * option init_args)))
            (done : list (string * process)) : result (list (string * process)) :=
          match todo with
          | [] => Ok done
          | (k, (cls, init_params)) :: todo =>
              match cls with
              | None => Raise (KeyError "Config dict missing required key cls!")
              | Some cls =>
                  if is_ExprProcess cls then
                    match init_params with
                    | None => Raise (TypeError "__init__() takes at least 3 arguments")
                    | Some ia =>
                        response ← init ia;
                        add_responses todo (odict_set k response done)
                    end
                  else Raise (TypeError "Class {} in {} could not be found!")
              end
          end) responses [];
  let argsyms := omap sympify (varnames ++ (fst <$> params)) in
  '(e', args) ← _lambdify e argsyms;
  Ok (Proc formula e' varnames params rs args).

(** *** The composition of a process and its responses *)

(** The mapping [evaluate] reads the parameters and the overrides of the
    responses from: the one given, or the declared parameters when none
    or an empty one is given. *)
Definition effective (p : process) (P : option pval) : pval :=
  let P := match P with None => PMap [] | Some P => P end in
  if not_ P then PMap (params p) else P.

(** [response.evaluate(D, override.get(name))] for the responses of [p],
    in order. *)
Definition evaluate_responses (p : process) (D : gmap string V) (override : pval) :
    result (list V) :=
  (fix each (rs : list (string * process)) : result (list V) :=
     match rs with
     | [] => Ok []
     | (resp_name, response) :: rs =>
         o ← get_or_none override resp_name;
         x ← evaluate response D o true;
         xs ← each rs;
         Ok (x :: xs)
     end) (responses p).

(** The right-hand side of the composition law: the evaluation without
    the responses, times the product of the responses evaluated with the
    entries of [override]. *)
Definition composed (p : process) (D : gmap string V) (P : option pval) (override : pval) :
    result V :=
  evaled ← evaluate p D P false;
  xs ← evaluate_responses p D override;
  match xs with
  | x :: xs => Ok (vmul evaled (reduce_mul x xs))
  | [] => Ok evaled
  end.


Lemma evaluate_full p D P :
  evaluate p D P true = composed p D P (effective p P).
Proof.
  unfold composed, evaluate_responses, effective.
  destruct p as [f e vs ps rs a]. cbn [evaluate responses params varnames].
  destruct (mapM _ vs) as [varargs|]; [|done]. cbn [mbind result_bind].
  destruct (mapM _ (fst <$> ps)) as [pargs|]; [|done]. cbn [mbind result_bind].
  destruct (expr_func _ _) as [evaled|]; [|done]. cbn [mbind result_bind].
  done.
Qed.

Lemma composed_no_responses p D P override :
  responses p = [] -> composed p D P override = evaluate p D P false.
Proof.
  intros Hr. unfold composed, evaluate_responses. rewrite Hr.
  by destruct (evaluate p D P false).
Qed.

(** C2, as the code has it.  With all the responses, [evaluate] gives what
    it gives without them times the product of the responses, each
    evaluated with the entry of its name in the mapping [evaluate] reads
    the parameters from: [P] when [P] is given and not empty, and the
    declared parameters of the process otherwise.  An exception of one
    side is the exception of the other.  For a process without responses
    the two calls are the same. *)
Theorem composition_law (p : process) (D : gmap string V) (P : option pval) :
  evaluate p D P true = composed p D P (effective p P) /\
  (forall P0, P = Some P0 -> not_ P0 = false ->
     evaluate p D P true = composed p D P P0) /\
  (responses p = [] -> evaluate p D P true = evaluate p D P false).
Proof.
  split_and!.
  - apply evaluate_full.
  - intros P0 -> Hne. rewrite evaluate_full. unfold effective. by rewrite Hne.
  - intros Hr. rewrite evaluate_full. by apply composed_no_responses.
Qed.

(** What [_lambdify] checks: the expression is not zero and every
    argument is one of its symbols.  A symbol of the expression that is
    not an argument does not count. *)
Lemma _lambdify_ok e args :
  is_ok (_lambdify e args) = true <->
  is_false e = false /\ forall a, a ∈ args -> is_atom (symbols e) a = true.
Proof.
  unfold _lambdify. destruct (is_false e); [by split; [|intros []]|].
  unfold mismatched. case_bool_decide as Hm; simpl.
  - split; [|done]. intros _. split; [done|]. intros a Ha.
    destruct (is_atom (symbols e) a) eqn:E; [done|].
    assert (a ∈ filter (fun a => is_atom (symbols e) a = false) args) as Hin
      by by apply list_elem_of_filter.
    rewrite Hm in Hin. by apply elem_of_nil in Hin.
  - split; [done|]. intros [_ Hall]. destruct Hm.
    destruct (filter _ args) as [|a l] eqn:E; [done|].
    assert (a ∈ filter (fun a => is_atom (symbols e) a = false) args) as Hin
      by (rewrite E; left).
    apply list_elem_of_filter in Hin as [Hf Ha]. by rewrite (Hall a Ha) in Hf.
Qed.

End WithValues.

(** ** Processes over the rationals

    The embedding at the numbers, with [read_formula] for sympy and the
    class [ExprProcess] under its two paths. *)
Definition Qfalse (q : Q) : bool := Qeq_bool q 0.

Definition names_ExprProcess (path : string) : bool :=
  bool_decide (path ∈ ["ExprProcess"; "microbenthos.process.ExprProcess"]).

Definition init_Q : init_args (V := Q) -> result (process (V := Q)) :=
  init read_formula names_ExprProcess.

Definition evaluate_Q : process -> gmap string Q -> option pval -> bool -> result Q :=
  evaluate (fun q => q) Qplus Qminus Qmult Qdiv Qopp Qfalse.

Definition composed_Q : process -> gmap string Q -> option pval -> pval -> result Q :=
  composed (fun q => q) Qplus Qminus Qmult Qdiv Qopp Qfalse.

(** A process whose parameter [k] has the name of its response. *)
Definition rate_init : init_args (V := Q) :=
  InitArgs "x*k" ["x"] [("k", PVal 2%Q)]
    [("k", (Some "ExprProcess", Some (InitArgs "x + c" ["x"] [("c", PVal 1%Q)] [])))].

Definition rate : process (V := Q) :=
  Proc "x*k" (Mul (Sym "x") (Sym "k")) ["x"] [("k", PVal 2%Q)]
    [("k", Proc "x + c" (Add (Sym "x") (Sym "c")) ["x"] [("c", PVal 1%Q)] []
             [Sym "x"; Sym "c"])]
    [Sym "x"; Sym "k"].

Example rate_constructed : init_Q rate_init = Ok rate.
Proof. vm_compute. reflexivity. Qed.

Lemma composition_law_witness :
  evaluate_Q rate {[ "x" := 3%Q ]} (Some (PMap [("k", PMap [("c", PVal 5%Q)])])) true =
  composed_Q rate {[ "x" := 3%Q ]} (Some (PMap [("k", PMap [("c", PVal 5%Q)])]))
    (PMap [("k", PMap [("c", PVal 5%Q)])]).
Proof.
  apply (proj1 (proj2 (composition_law (fun q => q) Qplus Qminus Qmult Qdiv Qopp Qfalse
                         rate {[ "x" := 3%Q ]} (Some (PMap [("k", PMap [("c", PVal 5%Q)])]))))
           _ eq_refl).
  reflexivity.
Defined.

(** With an empty override, the response [k] is evaluated with the declared
    parameter [k] of the process, the number 2, where the law as the
    specification words it evaluates it with [{}.get('k')], that is
    [None]: the call raises where the law gives 24. *)
Lemma composition_law_literal_fails :
  evaluate_Q rate {[ "x" := 3%Q ]} (Some (PMap [])) true =
    Raise (TypeError "object has no attribute __getitem__") /\
  composed_Q rate {[ "x" := 3%Q ]} (Some (PMap [])) (PMap []) = Ok (24 # 1)%Q.
Proof. split; vm_compute; reflexivity. Qed.

(** C1, at the formula ["a*b"] with the variable names [["a"]] and no
    parameters.  The construction returns: [_lambdify] looks for the
    declared names that are not symbols of the expression, and never for
    the symbols of the expression that are not declared.  The symbol [b] is
    missed until the process is evaluated, where it is a name that is not
    defined.  The other direction is checked: the formula ["a"] with the
    variable names [["a", "c"]] is refused at construction. *)
Theorem undeclared_symbol_accepted :
  init_Q (InitArgs "a*b" ["a"] [] []) =
    Ok (Proc "a*b" (Mul (Sym "a") (Sym "b")) ["a"] [] [] [Sym "a"]) /\
  evaluate_Q (Proc "a*b" (Mul (Sym "a") (Sym "b")) ["a"] [] [] [Sym "a"])
    {[ "a" := 3%Q ]} None true = Raise (NameError "global name is not defined") /\
  init_Q (InitArgs "a" ["a"; "c"] [] []) =
    Raise (ValueError "Expression & var/params mismatch!").
Proof. split_and!; vm_compute; reflexivity. Qed.

(** ** More on processes *)

Section MoreWithValues.
Context {V : Type}.
Variable vnum : Q -> V.
Variables vadd vsub vmul vdiv : V -> V -> V.
Variable vneg : V -> V.
Variable vfalse : V -> bool.
Variable sympify : string -> option expr.
Variable is_ExprProcess : string -> bool.

(** Induction on a process and on its responses. *)
Lemma process_nested_ind (Pr : process (V := V) -> Prop) :
  (forall f e vs ps rs a, Forall (fun kr => Pr kr.2) rs -> Pr (Proc f e vs ps rs a)) ->
  forall p, Pr p.
Proof.
  intros H. fix IH 1. intros [f e vs ps rs a]. apply H.
  induction rs as [|[k r] rs IHrs]; constructor; [apply IH|apply IHrs].
Qed.

(** [dependent_vars]: the names of the variables of the process and of its
    responses, as a set. *)
Fixpoint dependent_vars (p : process (V := V)) : gset string :=
  list_to_set (varnames p) ∪
  (fix each (rs : list (string * process)) : gset string :=
     match rs with
     | [] => ∅
     | (_, proc) :: rs => dependent_vars proc ∪ each rs
     end) (responses p).

(** *** The arguments [evaluate] collects *)

Lemma mapM_ok {A B} (f : A -> result B) l ys :
  mapM f l = Ok ys -> Forall2 (fun x y => f x = Ok y) l ys.
Proof.
  revert ys. induction l as [|x l IH]; intros ys; simpl.
  - intros [= <-]. constructor.
  - destruct (f x) as [y|] eqn:E; [|done]. simpl.
    destruct (mapM f l) as [k|]; [|done]. simpl. intros [= <-].
    constructor; [done|by apply IH].
Qed.

Lemma mapM_all_ok {A B} (f : A -> result B) l :
  (forall x, x ∈ l -> exists y, f x = Ok y) -> exists ys, mapM f l = Ok ys.
Proof.
  induction l as [|x l IH]; intros H; simpl; [by eexists|].
  destruct (H x) as [y ->]; [left|]. simpl.
  destruct IH as [ys ->]; [intros z Hz; apply H; by right|]. by eexists.
Qed.

Lemma mapM_raise {A B} (f : A -> result B) l1 x l2 e :
  (forall z, z ∈ l1 -> exists y, f z = Ok y) -> f x = Raise e ->
  mapM f (l1 ++ x :: l2) = Raise e.
Proof.
  intros H Hx. induction l1 as [|z l1 IH]; simpl.
  - by rewrite Hx.
  - destruct (H z) as [y ->]; [left|]. simpl.
    rewrite IH; [done|]. intros z' Hz'. apply H. by right.
Qed.

(** X20. [evaluate] reads the variables first, in the order of [varnames]: the
    first one [D] does not hold is the [KeyError] of the call, whatever the
    parameters, the overrides and [full]. *)
Theorem evaluate_missing_var (p : process) (D : gmap string V) (P : option pval)
    (full : bool) (before after : list string) (v : string) :
  varnames p = before ++ v :: after ->
  (forall x, x ∈ before -> is_Some (D !! x)) ->
  D !! v = None ->
  evaluate vnum vadd vsub vmul vdiv vneg vfalse p D P full = Raise (KeyError v).
Proof.
  intros Hv Hb Hm. destruct p as [f e vs ps rs a]. simpl in Hv. subst vs.
  cbn [evaluate varnames].
  erewrite mapM_raise; [done| |by rewrite Hm].
  intros z Hz. destruct (Hb z Hz) as [y ->]. by eexists.
Qed.

(** X21. A mapping [P] that is not empty stands in for all the declared
    parameters: the first declared parameter it does not hold is the
    [KeyError] of the call; the declared value is not used in its place. *)
Theorem evaluate_partial_override (p : process) (D : gmap string V)
    (kvs : list (string * pval)) (full : bool) (before after : list string) (k : string) :
  (forall x, x ∈ varnames p -> is_Some (D !! x)) ->
  kvs <> [] ->
  (params p).*1 = before ++ k :: after ->
  (forall x, x ∈ before -> is_Some (assoc x kvs)) ->
  assoc k kvs = None ->
  evaluate vnum vadd vsub vmul vdiv vneg vfalse p D (Some (PMap kvs)) full =
    Raise (KeyError k).
Proof.
  intros HD Hne Hps Hb Hk. destruct p as [f e vs ps rs a]. simpl in HD, Hps.
  cbn [evaluate varnames params].
  destruct (mapM_all_ok (fun v => match D !! v with
                                  | Some x => Ok (PVal x)
                                  | None => Raise (KeyError v)
                                  end) vs) as [varargs ->].
  { intros x Hx. destruct (HD x Hx) as [y ->]. by eexists. }
  cbn [mbind result_bind]. unfold not_. rewrite bool_decide_eq_false_2 by done.
  rewrite Hps. erewrite mapM_raise; [done| |by simpl; rewrite Hk].
  intros z Hz. destruct (Hb z Hz) as [y Hy]. simpl. rewrite Hy. by eexists.
Qed.

(** X22. A full evaluation that returns has found in [D] every variable the
    process depends on, its own and those of its responses. *)
Theorem dependent_vars_needed (p : process) (D : gmap string V) (P : option pval) (v : V) :
  evaluate vnum vadd vsub vmul vdiv vneg vfalse p D P true = Ok v ->
  dependent_vars p ⊆ dom D.
Proof.
  revert P v. induction p as [f e vs ps rs a IH] using process_nested_ind.
  intros P v H. cbn [evaluate varnames params responses] in H.
  cbn [dependent_vars varnames responses].
  destruct (mapM _ vs) as [varargs|] eqn:Hvars; [|done]. cbn [mbind result_bind] in H.
  destruct (mapM _ ps.*1) as [pargs|]; [|done]. cbn [mbind result_bind] in H.
  destruct (expr_func _ _ _ _ _ _ _ _) as [evaled|]; [|done]. cbn [mbind result_bind] in H.
  apply union_subseteq. split.
  - intros x Hx. apply elem_of_list_to_set in Hx.
    apply mapM_ok in Hvars.
    apply list_elem_of_lookup_1 in Hx as [i Hi].
    destruct (Forall2_lookup_l _ _ _ _ _ Hvars Hi) as (y & _ & Hy).
    apply elem_of_dom. destruct (D !! x); [by eexists|done].
  - set (Pe := if not_ vfalse _ then _ else _) in H. clearbody Pe.
    destruct ((fix each (rs : list (string * process)) : result (list V) := _) rs)
      as [xs|] eqn:Hrs; [|done]. clear H.
    revert xs Hrs. induction IH as [|[k r] rs Hr _ IHrs]; intros xs Hrs; [done|].
    cbn [mbind result_bind] in Hrs.
    destruct (get_or_none Pe k) as [o|]; [|done]. cbn [mbind result_bind] in Hrs.
    destruct (evaluate _ _ _ _ _ _ _ r D o true) as [x|] eqn:Hx; [|done].
    cbn [mbind result_bind] in Hrs.
    destruct ((fix each (rs : list (string * process)) : result (list V) := _) rs)
      as [xs'|] eqn:Hrs'; [|done].
    apply union_subseteq. split; [by eapply Hr|by eapply IHrs].
Qed.

(** *** What a constructed process is *)

(** The loop of [__init__] over the responses: [add_response] for each, on
    the responses added so far. *)
Fixpoint add_responses (todo : list (string * (option string * option init_args)))
    (done : list (string * process (V := V))) : result (list (string * process)) :=
  match todo with
  | [] => Ok done
  | (k, (cls, init_params)) :: todo =>
      match cls with
      | None => Raise (KeyError "Config dict missing required key cls!")
      | Some cls =>
          if is_ExprProcess cls then
            match init_params with
            | None => Raise (TypeError "__init__() takes at least 3 arguments")
            | Some ia =>
                response ← init sympify is_ExprProcess ia;
                add_responses todo (odict_set k response done)
            end
          else Raise (TypeError "Class {} in {} could not be found!")
      end
  end.

Lemma init_unfold f vs ps rs :
  init sympify is_ExprProcess (InitArgs f vs ps rs) =
    (check_names sympify ps.*1 ;;
     check_names sympify vs ;;
     e ← parse_formula sympify f;
     check_names sympify rs.*1 ;;
     rs' ← add_responses rs [];
     '(e', args) ← _lambdify e (omap sympify (vs ++ ps.*1));
     Ok (Proc f e' vs ps rs' args)).
Proof. reflexivity. Qed.

Lemma check_names_ok names :
  check_names sympify names = Ok () -> forall n, n ∈ names -> is_Some (sympify n).
Proof.
  unfold check_names. case_bool_decide as Hi; [|done]. intros _ n Hn.
  destruct (sympify n) eqn:E; [done|].
  assert (n ∈ filter (fun n => sympify n = None) names) as Hin
    by by apply list_elem_of_filter.
  rewrite Hi in Hin. by apply elem_of_nil in Hin.
Qed.

Lemma omap_all_some {A B} (f : A -> option B) l :
  (forall x, x ∈ l -> is_Some (f x)) -> length (omap f l) = length l.
Proof.
  induction l as [|x l IH]; intros H; [done|]. simpl.
  destruct (H x) as [y ->]; [left|]. simpl. f_equal. apply IH.
  intros z Hz. apply H. by right.
Qed.

Lemma init_args_ok (f : string) (vs : list string) (ps : list (string * pval (V := V)))
    (rs : list (string * (option string * option (init_args (V := V))))) (p : process (V := V)) :
  init sympify is_ExprProcess (InitArgs f vs ps rs) = Ok p ->
  args p = omap sympify (argnames p) /\ length (args p) = length (argnames p).
Proof.
  rewrite init_unfold. intros H.
  destruct (check_names sympify ps.*1) as [[]|] eqn:Hps; [|done].
  destruct (check_names sympify vs) as [[]|] eqn:Hvs; [|done].
  cbn [mbind result_bind] in H.
  destruct (parse_formula sympify f) as [e|]; [|done]. cbn [mbind result_bind] in H.
  destruct (check_names sympify rs.*1) as [[]|]; [|done]. cbn [mbind result_bind] in H.
  destruct (add_responses rs []) as [rs'|]; [|done]. cbn [mbind result_bind] in H.
  destruct (_lambdify e _) as [[e' a]|] eqn:Hl; [|done]. cbn [mbind result_bind] in H.
  injection H as <-. unfold argnames. cbn [varnames params args].
  assert (a = omap sympify (vs ++ ps.*1)) as ->.
  { revert Hl. unfold _lambdify. destruct (is_false e); [done|].
    case_bool_decide; [|done]. intros [= E1 E2]. by subst. }
  split; [done|]. apply omap_all_some.
  intros n [Hn|Hn]%elem_of_app;
    [by apply (check_names_ok vs)|by apply (check_names_ok ps.*1)].
Qed.

(** X23. A process that was constructed keeps the formula, the variable names
    and the parameters it was given; the formula and every declared name
    were read by sympy, and the expression is not zero; the compiled
    function takes one argument for each declared name, and each of these
    arguments is a symbol of the expression. *)
Theorem init_constructed (f : string) (vs : list string) (ps : list (string * pval (V := V)))
    (rs : list (string * (option string * option (init_args (V := V))))) (p : process (V := V)) :
  init sympify is_ExprProcess (InitArgs f vs ps rs) = Ok p ->
  formula p = f /\ varnames p = vs /\ params p = ps /\
  sympify f = Some (expr_of p) /\ is_false (expr_of p) = false /\
  (forall n, n ∈ argnames p ++ rs.*1 -> is_Some (sympify n)) /\
  args p = omap sympify (argnames p) /\
  length (args p) = length (argnames p) /\
  (forall x, x ∈ args p -> exists s, x = Sym s /\ s ∈ symbols (expr_of p)).
Proof.
  rewrite init_unfold. intros H.
  destruct (check_names sympify ps.*1) as [[]|] eqn:Hps; [|done].
  destruct (check_names sympify vs) as [[]|] eqn:Hvs; [|done].
  cbn [mbind result_bind] in H. unfold parse_formula in H.
  destruct (sympify f) as [e|] eqn:Hf; [|done]. cbn [mbind result_bind] in H.
  destruct (check_names sympify rs.*1) as [[]|] eqn:Hrs; [|done].
  cbn [mbind result_bind] in H.
  destruct (add_responses rs []) as [rs'|]; [|done]. cbn [mbind result_bind] in H.
  destruct (_lambdify e _) as [[e' a]|] eqn:Hl; [|done]. cbn [mbind result_bind] in H.
  injection H as <-. unfold argnames. cbn [formula varnames params expr_of args].
  assert (is_ok (_lambdify e (omap sympify (vs ++ ps.*1))) = true) as Hok by by rewrite Hl.
  apply _lambdify_ok in Hok as [Hnz Hatoms].
  assert (e' = e /\ a = omap sympify (vs ++ ps.*1)) as [-> ->].
  { revert Hl. unfold _lambdify. rewrite Hnz. case_bool_decide; [|done].
    intros [= E1 E2]. by subst. }
  assert (forall n, n ∈ vs ++ ps.*1 -> is_Some (sympify n)) as Hnames.
  { intros n [Hn|Hn]%elem_of_app;
      [by apply (check_names_ok vs)|by apply (check_names_ok ps.*1)]. }
  split_and!; try done.
  - intros n [Hn|Hn]%elem_of_app; [by apply Hnames|by apply (check_names_ok rs.*1)].
  - by apply omap_all_some.
  - intros x Hx. specialize (Hatoms x Hx). destruct x; try done.
    exists s. split; [done|]. by apply bool_decide_eq_true in Hatoms.
Qed.

Lemma odict_set_new {A} k (v : A) l :
  k ∉ l.*1 -> odict_set k v l = l ++ [(k, v)].
Proof.
  induction l as [|[k' v'] l IH]; intros Hk; [done|]. simpl.
  rewrite bool_decide_eq_false_2.
  - f_equal. apply IH. intros Hin. apply Hk. by right.
  - intros ->. apply Hk. left.
Qed.

Lemma add_responses_ok todo : forall done rs',
  add_responses todo done = Ok rs' ->
  NoDup (done.*1 ++ todo.*1) ->
  exists added, rs' = done ++ added /\
    Forall2 (fun item kr =>
               kr.1 = item.1 /\
               exists cls ia, item.2 = (Some cls, Some ia) /\ is_ExprProcess cls = true /\
                 init sympify is_ExprProcess ia = Ok kr.2) todo added.
Proof.
  induction todo as [|[k [cls ip]] todo IH]; intros done rs' H Hnd; simpl in H.
  - injection H as <-. exists []. by rewrite app_nil_r.
  - destruct cls as [cls|]; [|done].
    destruct (is_ExprProcess cls) eqn:Hc; [|done].
    destruct ip as [ia|]; [|done].
    destruct (init sympify is_ExprProcess ia) as [r|] eqn:Hr; [|done].
    cbn [mbind result_bind] in H.
    simpl in Hnd. apply NoDup_app in Hnd as (Hd & Hdis & Ht).
    apply NoDup_cons in Ht as [Hk Ht].
    rewrite odict_set_new in H by (intros Hin; apply (Hdis k Hin); left).
    apply IH in H as (added & -> & HF).
    + exists ((k, r) :: added). split; [by rewrite <- app_assoc|].
      constructor; [|done]. split; [done|]. by exists cls, ia.
    + rewrite fmap_app. simpl. rewrite <- app_assoc. simpl.
      apply NoDup_app. split_and!; [done| |by apply NoDup_cons].
      intros x Hx [->|Hin]%elem_of_cons; [by apply (Hdis k Hx); left|].
      apply (Hdis x Hx). by right.
Qed.

(** X24. Of a mapping of responses whose entries all name the class
    [ExprProcess]: the responses of the constructed process are, in the
    order of the mapping, one process per entry, each under the name of its
    entry and constructed from the [init_params] of the entry, which the
    entry has, by the same constructor. *)
Theorem init_responses (f : string) (vs : list string) (ps : list (string * pval (V := V)))
    (rs : list (string * (option string * option (init_args (V := V))))) (p : process (V := V)) :
  NoDup rs.*1 ->
  Forall (fun item => exists cls, item.2.1 = Some cls /\ is_ExprProcess cls = true) rs ->
  init sympify is_ExprProcess (InitArgs f vs ps rs) = Ok p ->
  Forall2 (fun item kr =>
             kr.1 = item.1 /\
             exists ia, item.2.2 = Some ia /\ init sympify is_ExprProcess ia = Ok kr.2)
    rs (responses p).
Proof.
  intros Hnd _. rewrite init_unfold. intros H.
  destruct (check_names sympify ps.*1) as [[]|]; [|done].
  destruct (check_names sympify vs) as [[]|]; [|done].
  cbn [mbind result_bind] in H.
  destruct (parse_formula sympify f) as [e|]; [|done]. cbn [mbind result_bind] in H.
  destruct (check_names sympify rs.*1) as [[]|]; [|done]. cbn [mbind result_bind] in H.
  destruct (add_responses rs []) as [rs'|] eqn:Hrs; [|done]. cbn [mbind result_bind] in H.
  destruct (_lambdify e _) as [[e' a]|]; [|done]. cbn [mbind result_bind] in H.
  injection H as <-. cbn [responses].
  apply add_responses_ok in Hrs as (added & -> & HF); [|done].
  eapply Forall2_impl; [exact HF|].
  intros item kr (Hk & cls & ia & Hi & _ & Hr). split; [done|].
  exists ia. by rewrite Hi.
Qed.

(** *** [add_response] *)

(** [add_response(name, **params)]: the response is constructed by
    [from_dict] and stored under [name]. *)
Definition add_response (p : process (V := V)) (name : string) (cls : option string)
    (init_params : option init_args) : result process :=
  match cls with
  | None => Raise (KeyError ("Config dict missing required key " +:+ dq +:+ "cls" +:+ dq +:+ "!"))
  | Some cls =>
      if is_ExprProcess cls then
        match init_params with
        | None => Raise (TypeError "__init__() takes at least 3 arguments")
        | Some ia =>
            response ← init sympify is_ExprProcess ia;
            Ok (Proc (formula p) (expr_of p) (varnames p) (params p)
                  (odict_set name response (responses p)) (args p))
        end
      else Raise (TypeError "Class {} in {} could not be found!")
  end.

Lemma assoc_odict_set {A} k (v : A) l :
  assoc k (odict_set k v l) = Some v /\
  forall k', k' <> k -> assoc k' (odict_set k v l) = assoc k' l.
Proof.
  induction l as [|[k0 v0] l [IH1 IH2]]; cbn [odict_set assoc].
  - rewrite bool_decide_eq_true_2 by done. split; [done|].
    intros k' Hk'. by rewrite bool_decide_eq_false_2.
  - destruct (decide (k0 = k)) as [->|Hne].
    + rewrite bool_decide_eq_true_2 by done. cbn [assoc].
      rewrite bool_decide_eq_true_2 by done. split; [done|].
      intros k' Hk'. by rewrite !bool_decide_eq_false_2.
    + rewrite bool_decide_eq_false_2 by done. cbn [assoc].
      rewrite bool_decide_eq_false_2 by done. split; [done|].
      intros k' Hk'. destruct (bool_decide (k0 = k')); [done|by apply IH2].
Qed.

Lemma odict_set_keys {A} k (v : A) l :
  (odict_set k v l).*1 = if bool_decide (k ∈ l.*1) then l.*1 else l.*1 ++ [k].
Proof.
  induction l as [|[k0 v0] l IH]; [done|]. cbn [odict_set].
  destruct (decide (k0 = k)) as [->|Hne].
  - rewrite bool_decide_eq_true_2 by done. cbn [fmap list_fmap fst].
    rewrite bool_decide_eq_true_2; [done|left].
  - rewrite bool_decide_eq_false_2 by done. cbn [fmap list_fmap fst].
    change (list_fmap _ _ fst ?x) with (x.*1). rewrite IH.
    destruct (decide (k ∈ l.*1)) as [Hin|Hin].
    + rewrite !bool_decide_eq_true_2; [done|by right|done].
    + rewrite !bool_decide_eq_false_2; [done| |done].
      intros [->|?]%elem_of_cons; done.
Qed.

Lemma evaluate_without_responses f e vs ps rs rs' a D P :
  evaluate vnum vadd vsub vmul vdiv vneg vfalse (Proc f e vs ps rs a) D P false =
  evaluate vnum vadd vsub vmul vdiv vneg vfalse (Proc f e vs ps rs' a) D P false.
Proof. reflexivity. Qed.

(** X25. A response that was added is the process constructed from its
    parameters and is found under its name.  An existing name keeps its
    place and gets the new response; a new name goes last.  The other
    responses stay, and so do the formula, the expression, the variables
    and the parameters: the process evaluates as before when its responses
    are left out. *)
Theorem add_response_spec (p p' : process (V := V)) (name : string) (cls : option string)
    (init_params : option init_args) :
  add_response p name cls init_params = Ok p' ->
  (exists c ia r, cls = Some c /\ is_ExprProcess c = true /\ init_params = Some ia /\
     init sympify is_ExprProcess ia = Ok r /\ assoc name (responses p') = Some r) /\
  (forall other, other <> name -> assoc other (responses p') = assoc other (responses p)) /\
  (responses p').*1 =
    (if bool_decide (name ∈ (responses p).*1) then (responses p).*1
     else (responses p).*1 ++ [name]) /\
  (forall D P, evaluate vnum vadd vsub vmul vdiv vneg vfalse p' D P false =
               evaluate vnum vadd vsub vmul vdiv vneg vfalse p D P false).
Proof.
  unfold add_response. destruct cls as [c|]; [|done].
  destruct (is_ExprProcess c) eqn:Hc; [|done].
  destruct init_params as [ia|]; [|done].
  destruct (init sympify is_ExprProcess ia) as [r|] eqn:Hr; [|done].
  cbn [mbind result_bind]. intros [= <-]. cbn [responses].
  destruct (assoc_odict_set name r (responses p)) as [H1 H2].
  split_and!.
  - by exists c, ia, r.
  - done.
  - apply odict_set_keys.
  - intros D P. by destruct p.
Qed.

(** *** When an evaluation returns *)

Lemma assoc_zip_Some {A} (names : list string) (values : list A) s :
  length names = length values -> s ∈ names ->
  exists v, assoc s (zip names values) = Some v /\ v ∈ values.
Proof.
  revert values. induction names as [|n names IH]; intros [|v values] Hlen Hs;
    try done; [by apply elem_of_nil in Hs|].
  simpl. case_bool_decide as Hn.
  - exists v. split; [done|left].
  - apply elem_of_cons in Hs as [->|Hs]; [done|].
    destruct (IH values) as (v' & Hv' & Hin); [by injection Hlen|done|].
    exists v'. split; [done|by right].
Qed.

Lemma assoc_elem {A} k (l : list (string * A)) v :
  assoc k l = Some v -> (k, v) ∈ l.
Proof.
  induction l as [|[k0 v0] l IH]; [done|]. simpl.
  case_bool_decide as Hk; [intros [= <-]; subst; left|]. intros H. right. by apply IH.
Qed.

Lemma assoc_key {A} k (l : list (string * A)) :
  k ∈ l.*1 -> is_Some (assoc k l).
Proof.
  induction l as [|[k0 v0] l IH]; [by intros ?%elem_of_nil|]. simpl.
  case_bool_decide; [done|]. intros [->|?]%elem_of_cons; [done|by apply IH].
Qed.

Lemma eval_ok env e :
  (forall s, s ∈ symbols e -> exists v, assoc s env = Some (PVal v)) ->
  exists v, eval vnum vadd vsub vmul vdiv vneg env e = Ok v.
Proof.
  induction e as [q|s|a IHa b IHb|a IHa b IHb|a IHa b IHb|a IHa b IHb|a IHa];
    intros H; simpl.
  - by eexists.
  - destruct (H s) as [v ->]; [simpl; left|]. by eexists.
  - destruct IHa as [x ->]; [intros s Hs; apply H; simpl; apply elem_of_app; by left|].
    destruct IHb as [y ->]; [intros s Hs; apply H; simpl; apply elem_of_app; by right|].
    by eexists.
  - destruct IHa as [x ->]; [intros s Hs; apply H; simpl; apply elem_of_app; by left|].
    destruct IHb as [y ->]; [intros s Hs; apply H; simpl; apply elem_of_app; by right|].
    by eexists.
  - destruct IHa as [x ->]; [intros s Hs; apply H; simpl; apply elem_of_app; by left|].
    destruct IHb as [y ->]; [intros s Hs; apply H; simpl; apply elem_of_app; by right|].
    by eexists.
  - destruct IHa as [x ->]; [intros s Hs; apply H; simpl; apply elem_of_app; by left|].
    destruct IHb as [y ->]; [intros s Hs; apply H; simpl; apply elem_of_app; by right|].
    by eexists.
  - destruct IHa as [x ->]; [intros s Hs; apply H; by simpl|]. by eexists.
Qed.

Lemma symbol_names (names : list string) :
  (forall n, n ∈ names -> sympify n = Some (Sym n)) ->
  symbol_name <$> omap sympify names = names.
Proof.
  induction names as [|n l IH]; intros H; [done|].
  simpl. rewrite H by left. simpl. f_equal. apply IH.
  intros n' Hn'. apply H. by right.
Qed.

(** X26. A constructed process whose formula has only declared symbols returns
    a value when it is evaluated without its responses and with its
    declared parameters, provided [D] holds its variables, its parameters
    are numbers or arrays, and sympy reads each declared name as the symbol
    of that name. *)
Theorem constructed_evaluates (a : init_args (V := V)) (p : process (V := V)) (D : gmap string V) :
  init sympify is_ExprProcess a = Ok p ->
  (forall n, n ∈ argnames p -> sympify n = Some (Sym n)) ->
  (forall s, s ∈ symbols (expr_of p) -> s ∈ argnames p) ->
  (forall x, x ∈ varnames p -> is_Some (D !! x)) ->
  (forall k v, (k, v) ∈ params p -> exists x, v = PVal x) ->
  exists v, evaluate vnum vadd vsub vmul vdiv vneg vfalse p D None false = Ok v.
Proof.
  destruct a as [f vs ps rs]. intros Hi Hsym Hdecl HD Hps.
  apply init_args_ok in Hi as [Hargs Hlen].
  destruct p as [f' e vs' ps' rs' a]. unfold argnames in *.
  cbn [varnames params expr_of args] in *.
  assert (symbol_name <$> a = vs' ++ ps'.*1) as Hnames
    by (rewrite Hargs; by apply symbol_names).
  cbn [evaluate varnames params].
  destruct (mapM (fun v => match D !! v with
                           | Some x => Ok (PVal x)
                           | None => Raise (KeyError v)
                           end) vs') as [varargs|] eqn:Hva.
  2:{ destruct (mapM_all_ok (fun v => match D !! v with
                                      | Some x => Ok (PVal x)
                                      | None => Raise (KeyError v)
                                      end) vs') as [ys Hys]; [|by rewrite Hys in Hva].
      intros x Hx. destruct (HD x Hx) as [y ->]. by eexists. }
  cbn [mbind result_bind]. unfold not_. rewrite bool_decide_eq_true_2 by done.
  destruct (mapM (fun k => getitem (PMap ps') k) ps'.*1) as [pargs|] eqn:Hpa.
  2:{ destruct (mapM_all_ok (fun k => getitem (PMap ps') k) ps'.*1) as [ys Hys];
        [|by rewrite Hys in Hpa].
      intros k Hk. simpl. destruct (assoc_key k ps' Hk) as [v ->]. by eexists. }
  cbn [mbind result_bind].
  apply mapM_ok in Hva, Hpa.
  assert (length (varargs ++ pargs) = length a) as Hl.
  { rewrite Hlen, !length_app.
    by rewrite <- (Forall2_length _ _ _ Hva), <- (Forall2_length _ _ _ Hpa). }
  assert (forall v, v ∈ varargs ++ pargs -> exists x, v = PVal x) as Hvals.
  { intros v [Hv|Hv]%elem_of_app.
    - apply list_elem_of_lookup_1 in Hv as [i Hi].
      destruct (Forall2_lookup_r _ _ _ _ _ Hva Hi) as (n & _ & Hn).
      destruct (D !! n) as [x|]; [|done]. injection Hn as <-. by eexists.
    - apply list_elem_of_lookup_1 in Hv as [i Hi].
      destruct (Forall2_lookup_r _ _ _ _ _ Hpa Hi) as (k & _ & Hk).
      simpl in Hk. destruct (assoc k ps') as [v'|] eqn:Hv'; [|done].
      injection Hk as <-. apply assoc_elem in Hv'. by eapply Hps. }
  assert (exists v, expr_func vnum vadd vsub vmul vdiv vneg
                      (Proc f' e vs' ps' rs' a) (varargs ++ pargs) = Ok v) as [v ->].
  { unfold expr_func. cbn [args expr_of]. rewrite bool_decide_eq_true_2 by done.
    apply eval_ok. intros s Hs. rewrite Hnames.
    destruct (assoc_zip_Some (vs' ++ ps'.*1) (varargs ++ pargs) s) as (v & Hv & Hin).
    - rewrite <- Hnames, length_fmap. done.
    - by apply Hdecl.
    - destruct (Hvals v Hin) as [x ->]. by exists x. }
  cbn [mbind result_bind]. by eexists.
Qed.
End MoreWithValues.

(** A process with a response under a name of its own, and one with two
    parameters. *)
Definition growth_init : init_args (V := Q) :=
  InitArgs "x*k" ["x"] [("k", PVal 2%Q)]
    [("resp", (Some "ExprProcess", Some (InitArgs "y + c" ["y"] [("c", PVal 1%Q)] [])))].

Definition growth : process (V := Q) :=
  Proc "x*k" (Mul (Sym "x") (Sym "k")) ["x"] [("k", PVal 2%Q)]
    [("resp", Proc "y + c" (Add (Sym "y") (Sym "c")) ["y"] [("c", PVal 1%Q)] []
                [Sym "y"; Sym "c"])]
    [Sym "x"; Sym "k"].

Definition two_params : process (V := Q) :=
  Proc "x*k*m" (Mul (Mul (Sym "x") (Sym "k")) (Sym "m")) ["x"]
    [("k", PVal 2%Q); ("m", PVal 3%Q)] [] [Sym "x"; Sym "k"; Sym "m"].

Lemma growth_constructed : init_Q growth_init = Ok growth.
Proof. vm_compute. reflexivity. Qed.

Lemma evaluate_missing_var_witness :
  evaluate_Q growth {[ "y" := 4%Q ]} None true = Raise (KeyError "x").
Proof.
  apply (evaluate_missing_var (fun q => q) Qplus Qminus Qmult Qdiv Qopp Qfalse
           growth {[ "y" := 4%Q ]} None true [] [] "x").
  - reflexivity.
  - intros x Hx. by apply elem_of_nil in Hx.
  - vm_compute. reflexivity.
Defined.

Lemma evaluate_partial_override_witness :
  evaluate_Q two_params {[ "x" := 1%Q ]} (Some (PMap [("k", PVal 5%Q)])) true =
    Raise (KeyError "m").
Proof.
  apply (evaluate_partial_override (fun q => q) Qplus Qminus Qmult Qdiv Qopp Qfalse
           two_params {[ "x" := 1%Q ]} [("k", PVal 5%Q)] true ["k"] [] "m").
  - intros x Hx. apply list_elem_of_singleton in Hx as ->. exists 1%Q.
    vm_compute. reflexivity.
  - discriminate.
  - reflexivity.
  - intros x Hx. apply list_elem_of_singleton in Hx as ->. by eexists.
  - reflexivity.
Defined.

Lemma dependent_vars_needed_witness :
  exists v, evaluate_Q growth {[ "x" := 3%Q; "y" := 4%Q ]} None true = Ok v /\
    dependent_vars growth ⊆ dom ({[ "x" := 3%Q; "y" := 4%Q ]} : gmap string Q).
Proof.
  assert (exists v, evaluate_Q growth {[ "x" := 3%Q; "y" := 4%Q ]} None true = Ok v)
    as [v Hv] by (eexists; vm_compute; reflexivity).
  exists v. split; [exact Hv|].
  exact (dependent_vars_needed (fun q => q) Qplus Qminus Qmult Qdiv Qopp Qfalse
           growth _ None v Hv).
Defined.

Lemma init_constructed_witness :
  read_formula "x*k" = Some (expr_of growth) /\
  length (args growth) = length (argnames growth).
Proof.
  destruct (init_constructed read_formula names_ExprProcess "x*k" ["x"] [("k", PVal 2%Q)]
              [("resp", (Some "ExprProcess",
                         Some (InitArgs "y + c" ["y"] [("c", PVal 1%Q)] [])))] growth)
    as (_ & _ & _ & H1 & _ & _ & _ & H2 & _).
  - vm_compute. reflexivity.
  - exact (conj H1 H2).
Defined.

Lemma init_responses_witness :
  Forall2 (fun item kr => kr.1 = item.1 /\
             exists ia, item.2.2 = Some ia /\ init_Q ia = Ok kr.2)
    [("resp", (Some "ExprProcess", Some (InitArgs "y + c" ["y"] [("c", PVal 1%Q)] [])))]
    (responses growth).
Proof.
  apply (init_responses read_formula names_ExprProcess "x*k" ["x"] [("k", PVal 2%Q)]).
  - apply NoDup_singleton.
  - constructor; [|constructor]. exists "ExprProcess". split; reflexivity.
  - vm_compute. reflexivity.
Defined.

Lemma add_response_spec_witness :
  exists p',
    add_response read_formula names_ExprProcess growth "light" (Some "ExprProcess")
      (Some (InitArgs "y" ["y"] [] [])) = Ok p' /\
    (responses p').*1 = ["resp"; "light"].
Proof.
  assert (exists p', add_response read_formula names_ExprProcess growth "light"
                       (Some "ExprProcess") (Some (InitArgs "y" ["y"] [] [])) = Ok p')
    as [p' Hp] by (eexists; vm_compute; reflexivity).
  exists p'. split; [exact Hp|].
  destruct (add_response_spec (fun q => q) Qplus Qminus Qmult Qdiv Qopp Qfalse
              read_formula names_ExprProcess growth p' "light" _ _ Hp) as (_ & _ & H & _).
  exact H.
Defined.

Lemma constructed_evaluates_witness :
  exists v, evaluate_Q growth {[ "x" := 3%Q ]} None false = Ok v.
Proof.
  apply (constructed_evaluates (fun q => q) Qplus Qminus Qmult Qdiv Qopp Qfalse
           read_formula names_ExprProcess growth_init growth).
  - vm_compute. reflexivity.
  - change (argnames growth) with ["x"; "k"]. intros n Hn.
    apply elem_of_cons in Hn as [->|Hn]; [vm_compute; reflexivity|].
    apply list_elem_of_singleton in Hn as ->. vm_compute. reflexivity.
  - change (argnames growth) with ["x"; "k"].
    change (symbols (expr_of growth)) with ["x"; "k"]. intros s Hs. exact Hs.
  - change (varnames growth) with ["x"]. intros x Hx.
    apply list_elem_of_singleton in Hx as ->. exists 3%Q. vm_compute. reflexivity.
  - change (params growth) with [("k", PVal 2%Q)]. intros k v Hkv.
    apply list_elem_of_singleton in Hkv. injection Hkv as -> ->. by eexists.
Defined.

End Process.
